(** * go-config: the configuration store, its typed accessors and validators

    A shallow embedding of [config.go] (the [ConfigManager], the sources it
    consumes and the validators of the package), followed by the properties
    of the merge-and-access engine.

    Conventions of the embedding
    - Go's [int] is the 64-bit two's-complement integer, carried as a [Z].
    - Go's [float64] is IEEE 754 binary64, carried as a [spec_float] with
      precision 53 and exponent bound 1024; comparisons and the conversion
      from [int] are the ones of [SpecFloat].
    - [map[string]any] is a [gmap string Value]; a nil map ranges like the
      empty one.
    - methods of [*ConfigManager] are computations in a state monad over the
      manager's fields; the read/write mutex has no sequential content.
    - the interfaces [Source] and [Validator] are type classes. A source
      answers from its receiver. A validator is handed the map of the
      manager itself: it answers with an error or nil and with the map as it
      leaves it; the validators of the package leave it as it was.
    - an [error] is the call that made it: [errors.New] with its text, or
      [fmt.Errorf] with its format and operands. *)

From Stdlib Require Import ZArith Bool Lia SpecFloat Ascii.
From stdpp Require Import gmap strings list fin_maps.

Local Open Scope string_scope.
Local Open Scope list_scope.
Set Warnings "-register-all".

(** ** Numbers *)

(** Go's [int] on the 64-bit targets. *)
Definition int_min : Z := (- 2 ^ 63)%Z.
Definition int_max : Z := (2 ^ 63 - 1)%Z.

Definition int_representable (z : Z) : bool :=
  ((int_min <=? z) && (z <=? int_max))%Z.

(** Two's-complement reduction of an integer to the [int] range. *)
Definition wrap_int (z : Z) : Z :=
  ((z + 2 ^ 63) mod 2 ^ 64 - 2 ^ 63)%Z.

Definition float64 : Type := spec_float.

Definition float64_prec : Z := 53.
Definition float64_emax : Z := 1024.

(** The values a [float64] can really hold: canonical binary64 numbers. *)
Definition float64_valid (f : float64) : bool :=
  valid_binary float64_prec float64_emax f.

(** [x < y], [x > y] and [x != y] on [float64]; all comparisons with a NaN
    are false, so [!=] is true there. *)
Definition float64_lt (x y : float64) : bool := SFltb x y.
Definition float64_gt (x y : float64) : bool := SFltb y x.
Definition float64_ne (x y : float64) : bool := negb (SFeqb x y).

(** [float64(n)] for an [int] n: the nearest binary64, ties to even. *)
Definition float64_of_int (n : Z) : float64 :=
  binary_normalize float64_prec float64_emax n 0 false.

(** The binary64 number [m * 2^e], rounded if it has to be; used to write
    constants such as 42.7 or 8080.5. *)
Definition float64_lit (m e : Z) : float64 :=
  binary_normalize float64_prec float64_emax m e false.

(** The integer part of a finite float (truncation toward zero); NaN and the
    infinities have none. *)
Definition float64_trunc (f : float64) : option Z :=
  match f with
  | S754_zero _ => Some 0%Z
  | S754_finite s m e => Some (cond_Zopp s (Z.shiftl (Zpos m) e))
  | S754_infinity _ | S754_nan => None
  end.

(** Whether a float has a nonzero fractional part. *)
Definition float64_has_fraction (f : float64) : bool :=
  match f with
  | S754_finite _ m e =>
      negb (Z.shiftl (Z.shiftl (Zpos m) e) (- e) =? Zpos m)%Z
  | _ => false
  end.

(** ** Dynamically typed values *)

(** A Go slice: nil, or a sequence of elements. *)
Inductive slice (A : Type) : Type :=
| slice_nil
| slice_of (elems : list A).
Arguments slice_nil {A}.
Arguments slice_of {A} elems.

(** The elements a [for range] loop visits, in order. *)
Definition slice_elems {A} (s : slice A) : list A :=
  match s with
  | slice_nil => []
  | slice_of l => l
  end.

(** [len(s)] *)
Definition len {A} (s : slice A) : nat := length (slice_elems s).

(** [make([]string, n)]: n zero values, never nil. *)
Definition make_strings (n : nat) : list string := replicate n "".

(** The dynamic types the package tells apart, as [reflect.TypeOf] reports
    them. *)
Inductive GoType : Type :=
| TString
| TInt
| TFloat64
| TBool
| TStringSlice
| TAnySlice
| TOther (name : string).

(** A value of static type [any]. [VOther] stands for a value of any dynamic
    type the package has no case for (a nested map, an [int64], ...). *)
Inductive Value : Type :=
| VNil
| VString (s : string)
| VInt (n : Z)
| VFloat (f : float64)
| VBool (b : bool)
| VStringSlice (s : slice string)
| VAnySlice (s : slice Value)
| VOther (name : string).

(** [reflect.TypeOf(v)]; nil for the nil interface. *)
Definition reflect_TypeOf (v : Value) : option GoType :=
  match v with
  | VNil => None
  | VString _ => Some TString
  | VInt _ => Some TInt
  | VFloat _ => Some TFloat64
  | VBool _ => Some TBool
  | VStringSlice _ => Some TStringSlice
  | VAnySlice _ => Some TAnySlice
  | VOther name => Some (TOther name)
  end.

(** [v, ok := m[key]] on a [map[string]any]. *)
Definition map_index (m : gmap string Value) (key : string) : Value * bool :=
  match m !! key with
  | Some v => (v, true)
  | None => (VNil, false)
  end.

(** ** Errors *)

(** Operands of a [fmt.Errorf] call. *)
Inductive fmt_arg (E : Type) : Type :=
| ArgString (s : string)
| ArgFloat (f : float64)
| ArgType (t : option GoType)
| ArgError (e : E).
Arguments ArgString {E} s.
Arguments ArgFloat {E} f.
Arguments ArgType {E} t.
Arguments ArgError {E} e.

(** An [error] value: made by [errors.New], or by [fmt.Errorf] from a format
    and its operands. *)
Inductive error : Type :=
| errors_New (text : string)
| fmt_Errorf (format : string) (args : list (fmt_arg error)).

(** Whether a format contains the wrapping verb. *)
Definition has_wrap_verb (format : string) : bool :=
  match String.index 0 "%w" format with
  | Some _ => true
  | None => false
  end.

Fixpoint first_error_arg (args : list (fmt_arg error)) : option error :=
  match args with
  | [] => None
  | ArgError e :: _ => Some e
  | _ :: rest => first_error_arg rest
  end.

(** [errors.Unwrap]: the operand of the [%w] verb of a [fmt.Errorf] error. *)
Definition errors_Unwrap (err : error) : option error :=
  match err with
  | errors_New _ => None
  | fmt_Errorf format args =>
      if has_wrap_verb format then first_error_arg args else None
  end.

(** ** Sources and validators *)

(** The [Source] interface: one method producing a mapping or an error. *)
Class Source (S : Type) : Type :=
  Source_Load : S -> gmap string Value * option error.

(** The [Validator] interface: one method, handed the map of the manager
    itself and no copy of it. It answers with an error or nil, and the map
    is afterwards as the method left it. *)
Class Validator (V : Type) : Type :=
  Validator_Validate :
    V -> gmap string Value -> gmap string Value * option error.

(** A method that only reads the map it is handed. *)
Definition reading (check : gmap string Value -> option error)
  (values : gmap string Value) : gmap string Value * option error :=
  (values, check values).

(** A value of interface type [Validator]: a dynamic type implementing the
    interface, and a value of it. *)
Record validator : Type := as_validator {
  dyn_type : Type;
  dyn_impl : Validator dyn_type;
  dyn_value : dyn_type
}.
Arguments as_validator {dyn_type dyn_impl} dyn_value.

Definition validator_run (v : validator) (values : gmap string Value)
  : gmap string Value * option error :=
  @Validator_Validate (dyn_type v) (dyn_impl v) (dyn_value v) values.

(** What a validator answers on a map, and the map as it leaves it. *)
Definition validator_call (v : validator) (values : gmap string Value)
  : option error :=
  snd (validator_run v values).

Definition validator_leaves (v : validator) (values : gmap string Value)
  : gmap string Value :=
  fst (validator_run v values).

(** [DefaultSource] hands out its literal map. *)
Record DefaultSource : Type := { Values : gmap string Value }.

Definition DefaultSource_Load (s : DefaultSource)
  : gmap string Value * option error :=
  (Values s, None).

#[export] Instance DefaultSource_Source : Source DefaultSource :=
  DefaultSource_Load.

(** [MockSource] of the test suite: fails when its [err] field is set. *)
Record MockSource : Type := {
  mock_values : gmap string Value;
  mock_err : option error
}.

Definition MockSource_Load (m : MockSource)
  : gmap string Value * option error :=
  match mock_err m with
  | Some e => (∅, Some e)
  | None => (mock_values m, None)
  end.

#[export] Instance MockSource_Source : Source MockSource := MockSource_Load.

(** [MockValidator] of the test suite. *)
Record MockValidator : Type := { shouldFail : bool }.

Definition MockValidator_Validate (m : MockValidator)
  (values : gmap string Value) : option error :=
  if shouldFail m then Some (errors_New "validation failed") else None.

#[export] Instance MockValidator_Validator : Validator MockValidator :=
  fun m => reading (MockValidator_Validate m).

(** [RequiredValidator]: the listed keys must be present. *)
Record RequiredValidator : Type := { Keys : slice string }.

Fixpoint RequiredValidator_loop (keys : list string)
  (values : gmap string Value) : option error :=
  match keys with
  | [] => None
  | key :: rest =>
      let '(_, exists_) := map_index values key in
      if negb exists_
      then Some (fmt_Errorf "required configuration key missing: %s"
                   [ArgString key])
      else RequiredValidator_loop rest values
  end.

Definition RequiredValidator_Validate (v : RequiredValidator)
  (values : gmap string Value) : option error :=
  RequiredValidator_loop (slice_elems (Keys v)) values.

#[export] Instance RequiredValidator_Validator : Validator RequiredValidator :=
  fun v => reading (RequiredValidator_Validate v).

(** [TypeValidator]: the value of a key, when present, has exactly the
    given dynamic type. *)
Record TypeValidator : Type := {
  TypeValidator_Key : string;
  TypeValidator_Type : option GoType
}.

Definition GoType_eqb (a b : option GoType) : bool :=
  match a, b with
  | None, None => true
  | Some TString, Some TString
  | Some TInt, Some TInt
  | Some TFloat64, Some TFloat64
  | Some TBool, Some TBool
  | Some TStringSlice, Some TStringSlice
  | Some TAnySlice, Some TAnySlice => true
  | Some (TOther x), Some (TOther y) => String.eqb x y
  | _, _ => false
  end.

Definition TypeValidator_Validate (v : TypeValidator)
  (values : gmap string Value) : option error :=
  let '(value, exists_) := map_index values (TypeValidator_Key v) in
  if negb exists_ then None
  else
    let actualType := reflect_TypeOf value in
    if negb (GoType_eqb actualType (TypeValidator_Type v))
    then Some (fmt_Errorf "invalid type for key %s: expected %v, got %v"
                 [ArgString (TypeValidator_Key v);
                  ArgType (TypeValidator_Type v);
                  ArgType actualType])
    else None.

#[export] Instance TypeValidator_Validator : Validator TypeValidator :=
  fun v => reading (TypeValidator_Validate v).

(** ** The configuration manager *)

(** The fields of [ConfigManager]; the mutex guards them and holds no data. *)
Record ConfigManager : Type := {
  values : gmap string Value;
  validators : list validator
}.

(** Methods with a [*ConfigManager] receiver: computations that read and
    write the manager. *)
Definition M (A : Type) : Type := ConfigManager -> A * ConfigManager.

#[export] Instance M_ret : MRet M := fun A (a : A) c => (a, c).

#[export] Instance M_bind : MBind M :=
  fun A B (k : A -> M B) (m : M A) c => let '(a, c') := m c in k a c'.

Definition gets {A} (field : ConfigManager -> A) : M A :=
  fun c => (field c, c).

Definition modify (f : ConfigManager -> ConfigManager) : M unit :=
  fun c => (tt, f c).

(** [New] *)
Definition New : ConfigManager := {| values := ∅; validators := [] |}.

(** [Get] *)
Definition ConfigManager_Get (key : string) : M (Value * bool) :=
  vals ← gets values;
  mret (map_index vals key).

(** [GetString] *)
Definition ConfigManager_GetString (key : string) : M (string * bool) :=
  '(value, exists_) ← ConfigManager_Get key;
  if negb exists_ then mret ("", false)
  else
    match value with
    | VString str => mret (str, true)
    | _ => mret ("", false)
    end.

(** [GetBool] *)
Definition ConfigManager_GetBool (key : string) : M (bool * bool) :=
  '(value, exists_) ← ConfigManager_Get key;
  if negb exists_ then mret (false, false)
  else
    match value with
    | VBool b => mret (b, true)
    | _ => mret (false, false)
    end.

(** [GetFloat] *)
Definition ConfigManager_GetFloat (key : string) : M (float64 * bool) :=
  '(value, exists_) ← ConfigManager_Get key;
  if negb exists_ then mret (S754_zero false, false)
  else
    match value with
    | VFloat v => mret (v, true)
    | VInt v => mret (float64_of_int v, true)
    | _ => mret (S754_zero false, false)
    end.

(** The loop of [GetStringSlice] over a [[]any]: [result[i] = str] for each
    string item, and an early return at the first item that is none. *)
Fixpoint GetStringSlice_loop (items : list Value) (i : nat)
  (result : list string) : option (list string) :=
  match items with
  | [] => Some result
  | item :: rest =>
      match item with
      | VString str => GetStringSlice_loop rest (S i) (<[i:=str]> result)
      | _ => None
      end
  end.

(** [GetStringSlice] *)
Definition ConfigManager_GetStringSlice (key : string)
  : M (slice string * bool) :=
  '(value, exists_) ← ConfigManager_Get key;
  if negb exists_ then mret (slice_nil, false)
  else
    match value with
    | VStringSlice v => mret (v, true)
    | VAnySlice v =>
        let result := make_strings (len v) in
        match GetStringSlice_loop (slice_elems v) 0 result with
        | Some result => mret (slice_of result, true)
        | None => mret (slice_nil, false)
        end
    | _ => mret (slice_nil, false)
    end.

(** [Set] *)
Definition ConfigManager_Set (key : string) (value : Value)
  : M (option error) :=
  modify (fun c => {| values := <[key:=value]> (values c);
                      validators := validators c |});;
  mret None.

(** [Load]: the range loop assigns every produced entry into the store, in
    the order the map is iterated. *)
Definition ConfigManager_Load {S} `{Source S} (source : S)
  : M (option error) :=
  let '(vals, err) := Source_Load source in
  match err with
  | Some err =>
      mret (Some (fmt_Errorf "failed to load configuration: %w"
                    [ArgError err]))
  | None =>
      modify (fun c =>
        {| values := map_fold (fun k v acc => <[k:=v]> acc) (values c) vals;
           validators := validators c |});;
      mret None
  end.

(** The loop of [Validate]: each validator is handed the map of the
    manager as the calls before left it, and the first error ends the
    loop. The result is that map and the error. *)
Fixpoint Validate_loop (vs : list validator) (vals : gmap string Value)
  : gmap string Value * option error :=
  match vs with
  | [] => (vals, None)
  | v :: rest =>
      let '(vals, err) := validator_run v vals in
      match err with
      | Some err => (vals, Some err)
      | None => Validate_loop rest vals
      end
  end.

(** [Validate] *)
Definition ConfigManager_Validate : M (option error) :=
  vs ← gets validators;
  vals ← gets values;
  let '(vals, err) := Validate_loop vs vals in
  modify (fun c => {| values := vals; validators := validators c |});;
  mret err.

(** [AddValidator] *)
Definition ConfigManager_AddValidator (v : validator) : M unit :=
  modify (fun c => {| values := values c;
                      validators := validators c ++ [v] |}).

(** The validators the loop of [Validate] calls, in the order of the calls:
    the same traversal as [Validate_loop], recording each call. *)
Fixpoint Validate_calls (vs : list validator) (vals : gmap string Value)
  : list validator :=
  match vs with
  | [] => []
  | v :: rest =>
      let '(vals, err) := validator_run v vals in
      match err with
      | Some _ => [v]
      | None => v :: Validate_calls rest vals
      end
  end.

(** The type switch of [RangeValidator.Validate]: the [floatValue] it
    compares, or nothing for a value that is no number. *)
Definition RangeValidator_floatValue (value : Value) : option float64 :=
  match value with
  | VFloat val => Some val
  | VInt val => Some (float64_of_int val)
  | _ => None
  end.

(** ** Conversions from float64 to int, and what depends on them *)

(** [RangeValidator]: a numeric value within [Min, Max], integral when
    [IsInt] is set. *)
Record RangeValidator : Type := {
  Key : string;
  Min : float64;
  Max : float64;
  IsInt : bool
}.

Section FloatToInt.

(** Go leaves the result of converting to [int] a float that [int] cannot
    represent (NaN, an infinity, a magnitude of 2^63 or more) to the
    implementation: it is some [int], taken here as a parameter. *)
Variable conversion_overflow : float64 -> Z.

(** [int(f)] *)
Definition int_of_float64 (f : float64) : Z :=
  match float64_trunc f with
  | Some z =>
      if int_representable z then z else wrap_int (conversion_overflow f)
  | None => wrap_int (conversion_overflow f)
  end.

(** [GetInt] *)
Definition ConfigManager_GetInt (key : string) : M (Z * bool) :=
  '(value, exists_) ← ConfigManager_Get key;
  if negb exists_ then mret (0%Z, false)
  else
    match value with
    | VInt v => mret (v, true)
    | VFloat v => mret (int_of_float64 v, true)
    | _ => mret (0%Z, false)
    end.

(** [RangeValidator.Validate] *)
Definition RangeValidator_Validate (v : RangeValidator)
  (values : gmap string Value) : option error :=
  let '(value, exists_) := map_index values (Key v) in
  if negb exists_ then None
  else
    match RangeValidator_floatValue value with
    | None =>
        Some (fmt_Errorf
                "invalid type for range validation on key %s: expected number"
                [ArgString (Key v)])
    | Some floatValue =>
        if float64_lt floatValue (Min v) || float64_gt floatValue (Max v)
        then Some (fmt_Errorf
                     "value for key %s is out of range: expected between %v and %v"
                     [ArgString (Key v); ArgFloat (Min v); ArgFloat (Max v)])
        else if IsInt v
                && float64_ne floatValue
                     (float64_of_int (int_of_float64 floatValue))
        then Some (fmt_Errorf "value for key %s must be an integer"
                     [ArgString (Key v)])
        else None
    end.

End FloatToInt.

(** [*RangeValidator] implements [Validator] on every implementation. *)
Definition RangeValidator_Validator (conversion_overflow : float64 -> Z)
  : Validator RangeValidator :=
  fun v => reading (RangeValidator_Validate conversion_overflow v).

(** On amd64 the conversion instruction answers the most negative [int] for
    every float that [int] cannot represent. *)
Definition amd64_conversion_overflow : float64 -> Z := fun _ => int_min.

(** An implementation of [Validator] outside the package that writes to
    the map it is handed: it deletes one key, assigns another and
    accepts. *)
Record WritingValidator : Type := {
  Deletes : string;
  Assigns : string;
  Assigned : Value
}.

Definition WritingValidator_Validate (w : WritingValidator)
  (values : gmap string Value) : gmap string Value * option error :=
  (<[Assigns w := Assigned w]> (delete (Deletes w) values), None).

#[export] Instance WritingValidator_Validator : Validator WritingValidator :=
  WritingValidator_Validate.

(** ** Stores and sources used as concrete instances *)

(** A store whose one validator deletes "debug" and assigns "injected". *)
Definition written_store : ConfigManager :=
  {| values := {[ "debug" := VBool false ]};
     validators :=
       [as_validator {| Deletes := "debug"; Assigns := "injected";
                        Assigned := VInt 1 |}] |}.

Definition f42_7 : float64 := S754_finite false 6009490752772506 (-47).
Definition f8080_5 : float64 := float64_lit 16161 (-1).
Definition f2p63 : float64 := float64_lit 1 63.

Definition defaults_source : DefaultSource :=
  {| Values := {[ "port" := VInt 8080; "host" := VString "localhost" ]} |}.

Definition override_source : DefaultSource :=
  {| Values := {[ "port" := VInt 9090 ]} |}.

Definition failing_source : MockSource :=
  {| mock_values := ∅; mock_err := Some (errors_New "load error") |}.

Definition debug_store : ConfigManager :=
  {| values := {[ "debug" := VBool false ]}; validators := [] |}.

Definition typed_store : ConfigManager :=
  {| values := {[ "x" := VInt 42; "y" := VFloat f42_7; "z" := VString "hi";
                  "tags" := VAnySlice (slice_of [VString "a"; VString "b"]);
                  "mixed" := VAnySlice
                               (slice_of [VString "a"; VInt 1; VString "c"]) ]};
     validators := [] |}.

(** A required key "a" that is missing, then a validator that always
    fails. *)
Definition guarded_store : ConfigManager :=
  {| values := ∅;
     validators := [as_validator {| Keys := slice_of ["a"] |};
                    as_validator {| shouldFail := true |}] |}.

(** The range validator of the port example: 1024 to 65535, integral. *)
Definition port_validator : RangeValidator :=
  {| Key := "port"; Min := float64_lit 1024 0; Max := float64_lit 65535 0;
     IsInt := true |}.

(** The pipeline of the package's usage example on loaded defaults: the
    keys "port" and "host" are required and the port is range-checked. *)
Definition checked_store : ConfigManager :=
  {| values := {[ "port" := VInt 8080; "host" := VString "localhost" ]};
     validators :=
       [as_validator {| Keys := slice_of ["port"; "host"] |};
        @as_validator RangeValidator
          (RangeValidator_Validator amd64_conversion_overflow)
          port_validator] |}.

(** Bounds 0 and 2^53, on any number. *)
Definition wide_validator : RangeValidator :=
  {| Key := "n"; Min := S754_zero false; Max := float64_lit 1 53;
     IsInt := false |}.

(** ** Terms of the statements *)

(** Classes of dynamic types the accessors tell apart. *)
Definition is_string_value (v : Value) : bool :=
  match v with
  | VString _ => true
  | _ => false
  end.

Definition is_slice_value (v : Value) : bool :=
  match v with
  | VStringSlice _ | VAnySlice _ => true
  | _ => false
  end.

Definition is_number_value (v : Value) : bool :=
  match v with
  | VInt _ | VFloat _ => true
  | _ => false
  end.

(** A validator that leaves every map it is handed as it was. *)
Definition validator_reads_only (v : validator) : Prop :=
  forall vals : gmap string Value, validator_leaves v vals = vals.

(** The map as the validators [vs], called in that order, leave it. *)
Definition left_by (vs : list validator) (vals : gmap string Value)
  : gmap string Value :=
  foldl (fun m w => validator_leaves w m) vals vs.

(** Each of the validators [vs], called in that order, accepts the map at
    its turn, that is as the ones before it left it. *)
Fixpoint accept_in_turn (vs : list validator) (vals : gmap string Value)
  : Prop :=
  match vs with
  | [] => True
  | w :: rest =>
      validator_call w vals = None /\
      accept_in_turn rest (validator_leaves w vals)
  end.

(** The mapping and the validator list of [c'] are those of [c]. *)
Definition same_store (c c' : ConfigManager) : Prop :=
  values c' = values c /\ validators c' = validators c.

(** The three errors of [RangeValidator.Validate]. *)
Definition out_of_range_error (v : RangeValidator) : error :=
  fmt_Errorf "value for key %s is out of range: expected between %v and %v"
    [ArgString (Key v); ArgFloat (Min v); ArgFloat (Max v)].

Definition not_integer_error (v : RangeValidator) : error :=
  fmt_Errorf "value for key %s must be an integer" [ArgString (Key v)].

Definition not_number_error (v : RangeValidator) : error :=
  fmt_Errorf "invalid type for range validation on key %s: expected number"
    [ArgString (Key v)].

(** ** The sources that reach outside the program *)

(** What [FileSource] and [EnvSource] call outside the package: the
    operating system and the libraries, taken as they are. A scan or a
    decoding answers with what it read and its error. *)
Record Runtime : Type := {
  os_Environ : list string;
  os_ReadFile : string -> string * option error;
  filepath_Ext : string -> string;
  strings_ToUpper : string -> string;
  strings_ToLower : string -> string;
  json_Unmarshal : string -> gmap string Value * option error;
  yaml_Unmarshal : string -> gmap string Value * option error;
  fmt_Sscanf_d : string -> Z * option error;
  fmt_Sscanf_f : string -> float64 * option error
}.

(** [strings.HasPrefix] *)
Fixpoint strings_HasPrefix (s prefix : string) : bool :=
  match prefix, s with
  | EmptyString, _ => true
  | String _ _, EmptyString => false
  | String p prefix', String c s' =>
      Ascii.eqb c p && strings_HasPrefix s' prefix'
  end.

(** [s[n:]] *)
Fixpoint string_from (n : nat) (s : string) : string :=
  match n, s with
  | O, _ => s
  | S n', String _ s' => string_from n' s'
  | S _, EmptyString => EmptyString
  end.

(** [strings.TrimPrefix] *)
Definition strings_TrimPrefix (s prefix : string) : string :=
  if strings_HasPrefix s prefix then string_from (String.length prefix) s
  else s.

(** [strings.ReplaceAll(s, old, new)] for one-byte [old] and [new]. *)
Fixpoint strings_ReplaceAll (s : string) (old new : ascii) : string :=
  match s with
  | EmptyString => EmptyString
  | String c s' =>
      String (if Ascii.eqb c old then new else c)
        (strings_ReplaceAll s' old new)
  end.

(** The text before and after the first [sep] of [s], when it has one. *)
Fixpoint string_cut (s : string) (sep : ascii) : option (string * string) :=
  match s with
  | EmptyString => None
  | String c s' =>
      if Ascii.eqb c sep then Some (EmptyString, s')
      else
        match string_cut s' sep with
        | Some (before, after) => Some (String c before, after)
        | None => None
        end
  end.

(** [strings.SplitN(s, sep, 2)] for a one-byte [sep]. *)
Definition strings_SplitN2 (s : string) (sep : ascii) : list string :=
  match string_cut s sep with
  | Some (before, after) => [before; after]
  | None => [s]
  end.

(** [parseInt] and [parseFloat] *)
Definition parseInt (rt : Runtime) (s : string) : Z * option error :=
  fmt_Sscanf_d rt s.

Definition parseFloat (rt : Runtime) (s : string) : float64 * option error :=
  fmt_Sscanf_f rt s.

(** [EnvSource] reads the variables whose name starts with its prefix. *)
Record EnvSource : Type := { Prefix : string }.

(** The key [EnvSource.Load] stores a variable under: its name without the
    prefix, in lower case, with dots for underscores. *)
Definition EnvSource_configKey (rt : Runtime) (prefix key : string) : string :=
  let configKey := strings_ToLower rt (strings_TrimPrefix key prefix) in
  strings_ReplaceAll configKey "_"%char "."%char.

(** One turn of the loop of [EnvSource.Load] on the entry [env]. *)
Definition EnvSource_entry (rt : Runtime) (prefix : string)
  (values : gmap string Value) (env : string) : gmap string Value :=
  match strings_SplitN2 env "="%char with
  | [key; value] =>
      if negb (strings_HasPrefix key prefix) then values
      else
        let configKey := EnvSource_configKey rt prefix key in
        if String.eqb value "true" || String.eqb value "false"
        then <[configKey := VBool (String.eqb value "true")]> values
        else
          match parseInt rt value with
          | (intVal, None) => <[configKey := VInt intVal]> values
          | (_, Some _) =>
              match parseFloat rt value with
              | (floatVal, None) => <[configKey := VFloat floatVal]> values
              | (_, Some _) => <[configKey := VString value]> values
              end
          end
  | _ => values
  end.

(** The loop of [EnvSource.Load] over the entries of the environment. *)
Definition EnvSource_loop (rt : Runtime) (prefix : string)
  (envs : list string) (values : gmap string Value) : gmap string Value :=
  foldl (EnvSource_entry rt prefix) values envs.

(** [EnvSource.Load] *)
Definition EnvSource_Load (rt : Runtime) (s : EnvSource)
  : gmap string Value * option error :=
  let prefix := strings_ToUpper rt (Prefix s) in
  (EnvSource_loop rt prefix (os_Environ rt) ∅, None).

Definition EnvSource_Source (rt : Runtime) : Source EnvSource :=
  EnvSource_Load rt.

(** [FileSource] reads and decodes the file at its path. *)
Record FileSource : Type := { Path : string }.

(** [FileSource.Load] *)
Definition FileSource_Load (rt : Runtime) (s : FileSource)
  : gmap string Value * option error :=
  let '(data, err) := os_ReadFile rt (Path s) in
  match err with
  | Some err =>
      (∅, Some (fmt_Errorf "failed to read config file: %w" [ArgError err]))
  | None =>
      let ext := strings_ToLower rt (filepath_Ext rt (Path s)) in
      if String.eqb ext ".json" then
        match json_Unmarshal rt data with
        | (_, Some err) =>
            (∅, Some (fmt_Errorf "failed to parse JSON config: %w"
                        [ArgError err]))
        | (values, None) => (values, None)
        end
      else if String.eqb ext ".yaml" || String.eqb ext ".yml" then
        match yaml_Unmarshal rt data with
        | (_, Some err) =>
            (∅, Some (fmt_Errorf "failed to parse YAML config: %w"
                        [ArgError err]))
        | (values, None) => (values, None)
        end
      else
        (∅, Some (fmt_Errorf "unsupported config file format: %s"
                    [ArgString ext]))
  end.

Definition FileSource_Source (rt : Runtime) : Source FileSource :=
  FileSource_Load rt.

(** ** Sequences of calls *)

(** A value of interface type [Source]. *)
Record source : Type := as_source {
  src_type : Type;
  src_impl : Source src_type;
  src_value : src_type
}.
Arguments as_source {src_type src_impl} src_value.

(** A call of one method of a manager. *)
Inductive call : Type :=
| CallGet (key : string)
| CallGetString (key : string)
| CallGetInt (key : string)
| CallGetBool (key : string)
| CallGetFloat (key : string)
| CallGetStringSlice (key : string)
| CallSet (key : string) (value : Value)
| CallLoad (s : source)
| CallValidate
| CallAddValidator (v : validator).

(** The manager after a call, and after a sequence of calls. *)
Definition after_call (overflow : float64 -> Z) (c : ConfigManager)
  (op : call) : ConfigManager :=
  match op with
  | CallGet key => snd (ConfigManager_Get key c)
  | CallGetString key => snd (ConfigManager_GetString key c)
  | CallGetInt key => snd (ConfigManager_GetInt overflow key c)
  | CallGetBool key => snd (ConfigManager_GetBool key c)
  | CallGetFloat key => snd (ConfigManager_GetFloat key c)
  | CallGetStringSlice key => snd (ConfigManager_GetStringSlice key c)
  | CallSet key value => snd (ConfigManager_Set key value c)
  | CallLoad s =>
      snd (@ConfigManager_Load (src_type s) (src_impl s) (src_value s) c)
  | CallValidate => snd (ConfigManager_Validate c)
  | CallAddValidator v => snd (ConfigManager_AddValidator v c)
  end.

Definition after_calls (overflow : float64 -> Z) (c : ConfigManager)
  (ops : list call) : ConfigManager :=
  foldl (after_call overflow) c ops.

(** A call that registers no validator that writes. *)
Definition call_reads_only (op : call) : Prop :=
  match op with
  | CallAddValidator v => validator_reads_only v
  | _ => True
  end.

(** [*RangeValidator] and [*TypeValidator] as values of type [Validator]. *)
Definition RangeValidator_value (overflow : float64 -> Z)
  (v : RangeValidator) : validator :=
  @as_validator RangeValidator (RangeValidator_Validator overflow) v.

(** Whether a string has the byte [c]. *)
Fixpoint string_has (c : ascii) (s : string) : bool :=
  match s with
  | EmptyString => false
  | String c' s' => Ascii.eqb c' c || string_has c s'
  end.

(** The values [EnvSource] stores: booleans, integers, floats, strings. *)
Definition is_scalar_value (v : Value) : bool :=
  match v with
  | VBool _ | VInt _ | VFloat _ | VString _ => true
  | _ => false
  end.

(** An entry of the environment that [EnvSource.Load] passes over: it has
    no "=", or its name does not start with the prefix. *)
Definition env_passed_over (prefix env : string) : bool :=
  match string_cut env "="%char with
  | Some (key, _) => negb (strings_HasPrefix key prefix)
  | None => true
  end.

(** The place of a float that is no NaN in the order of the comparisons:
    its class from the negative infinity to the positive one, then exponent
    and mantissa, reversed for the negative numbers. *)
Definition float64_rank (f : float64) : Z * Z * Z :=
  match f with
  | S754_infinity true => (-2, 0, 0)%Z
  | S754_finite true m e => (-1, - e, - Zpos m)%Z
  | S754_zero _ | S754_nan => (0, 0, 0)%Z
  | S754_finite false m e => (1, e, Zpos m)%Z
  | S754_infinity false => (2, 0, 0)%Z
  end.

Definition rank_lt (a b : Z * Z * Z) : Prop :=
  (a.1.1 < b.1.1 \/
   (a.1.1 = b.1.1 /\ (a.1.2 < b.1.2 \/ (a.1.2 = b.1.2 /\ a.2 < b.2))))%Z.

(** ** A runtime used as concrete instance *)

(** ASCII case mapping, as [strings.ToUpper] and [strings.ToLower] do on
    ASCII text. *)
Definition ascii_upper (c : ascii) : ascii :=
  let n := nat_of_ascii c in
  if (97 <=? n)%nat && (n <=? 122)%nat then ascii_of_nat (n - 32) else c.

Definition ascii_lower (c : ascii) : ascii :=
  let n := nat_of_ascii c in
  if (65 <=? n)%nat && (n <=? 90)%nat then ascii_of_nat (n + 32) else c.

Fixpoint string_map (f : ascii -> ascii) (s : string) : string :=
  match s with
  | EmptyString => EmptyString
  | String c s' => String (f c) (string_map f s')
  end.

(** [filepath.Ext] with "/" as separator: the text from the last dot of the
    last element of the path. *)
Fixpoint unix_Ext (path : string) : string :=
  match path with
  | EmptyString => EmptyString
  | String c rest =>
      if Ascii.eqb c "."%char
         && negb (string_has "."%char rest || string_has "/"%char rest)
      then path
      else unix_Ext rest
  end.

(** An environment of five entries, two files, and scans that read the
    numeral 9090 and no float. *)
Definition example_runtime : Runtime :=
  {| os_Environ := ["APP_SERVER_PORT=9090"; "APP_DEBUG=true"; "HOME=/root";
                    "APP_NAME=my=app"; "novalue"];
     os_ReadFile := fun path =>
       if String.eqb path "conf/app.JSON" then ("{}", None)
       else if String.eqb path "conf/app.toml" then ("port = 1", None)
       else ("", Some (errors_New "no such file or directory"));
     filepath_Ext := unix_Ext;
     strings_ToUpper := string_map ascii_upper;
     strings_ToLower := string_map ascii_lower;
     json_Unmarshal := fun data =>
       if String.eqb data "{}" then (∅, None)
       else (∅, Some (errors_New "unexpected end of JSON input"));
     yaml_Unmarshal := fun _ => (∅, None);
     fmt_Sscanf_d := fun s =>
       if String.eqb s "9090" then (9090%Z, None)
       else (0%Z, Some (errors_New "expected integer"));
     fmt_Sscanf_f := fun _ =>
       (S754_zero false, Some (errors_New "bad number syntax")) |}.

(** A store whose validators check the port with every validator of the
    package. *)
Definition port_store : ConfigManager :=
  {| values := {[ "port" := VFloat (float64_lit 8080 0) ]};
     validators :=
       [as_validator {| Keys := slice_of ["port"] |};
        as_validator {| TypeValidator_Key := "port";
                        TypeValidator_Type := Some TFloat64 |};
        RangeValidator_value amd64_conversion_overflow port_validator] |}.

(** * Properties *)

(** Unfolding of the monad of methods. *)
Ltac run_method :=
  unfold mbind, M_bind, mret, M_ret, gets, modify; simpl.

(** ** The store as a map *)

Lemma lookup_map_index (m : gmap string Value) (key : string) (v : Value) :
  m !! key = Some v -> map_index m key = (v, true).
Proof. intros Hk. unfold map_index. by rewrite Hk. Qed.

Lemma Get_run (key : string) (c : ConfigManager) :
  ConfigManager_Get key c = (map_index (values c) key, c).
Proof. reflexivity. Qed.

(** The range loop of [Load] is an overlay: whatever order the produced map
    is iterated in, its entries win and the others stay. *)
Lemma merge_lookup (old new : gmap string Value) (k : string) :
  map_fold (fun k v acc => <[k:=v]> acc) old new !! k
  = match new !! k with
    | Some v => Some v
    | None => old !! k
    end.
Proof.
  revert k.
  apply (map_fold_weak_ind
           (fun r (m : gmap string Value) =>
              forall k, r !! k = match m !! k with
                                 | Some v => Some v
                                 | None => old !! k
                                 end)).
  - intros k. by rewrite lookup_empty.
  - intros i x m r _ IH k.
    destruct (decide (i = k)) as [->|Hne].
    + by rewrite !lookup_insert_eq.
    + rewrite !lookup_insert_ne by done. apply IH.
Qed.

Lemma Load_run_ok {S} `{Source S} (source : S) (vals : gmap string Value)
  (c : ConfigManager) :
  Source_Load source = (vals, None) ->
  ConfigManager_Load source c
  = (None, {| values := map_fold (fun k v acc => <[k:=v]> acc) (values c) vals;
              validators := validators c |}).
Proof. intros Hs. unfold ConfigManager_Load. by rewrite Hs. Qed.

(** C1. Load precedence, last loaded source wins: when the productions of A
    and then B both succeed, after [Load(A); Load(B)] both calls returned
    nil, every key of B's mapping reads B's value, every key of A's mapping
    that B's lacks reads A's value, and a key of neither reads what it read
    before the two loads. *)
Theorem Load_precedence {SA SB} `{Source SA} `{Source SB}
  (A : SA) (B : SB) (mA mB : gmap string Value) (c : ConfigManager) :
  Source_Load A = (mA, None) ->
  Source_Load B = (mB, None) ->
  let c1 := snd (ConfigManager_Load A c) in
  let c2 := snd (ConfigManager_Load B c1) in
  fst (ConfigManager_Load A c) = None /\
  fst (ConfigManager_Load B c1) = None /\
  forall k : string,
    (forall v, mB !! k = Some v ->
               fst (ConfigManager_Get k c2) = (v, true)) /\
    (forall v, mA !! k = Some v -> mB !! k = None ->
               fst (ConfigManager_Get k c2) = (v, true)) /\
    (mA !! k = None -> mB !! k = None ->
     fst (ConfigManager_Get k c2) = fst (ConfigManager_Get k c)).
Proof.
  intros HA HB c1 c2. subst c1 c2.
  rewrite (Load_run_ok A mA c HA). cbn [fst snd].
  rewrite (Load_run_ok B mB _ HB). cbn [fst snd].
  split; [done|]. split; [done|].
  intros k. rewrite !Get_run. cbn [fst values].
  unfold map_index. rewrite !merge_lookup.
  repeat split.
  - intros v Hv. by rewrite Hv.
  - intros v Hv Hn. by rewrite Hn, Hv.
  - intros Ha Hb. by rewrite Hb, Ha.
Qed.

(** C2. Load is atomic on failure: when the production of the source fails
    with an error e, [Load] returns the non-nil error that wraps e, and the
    manager (its mapping and its validators) is exactly as before. *)
Theorem Load_failure_atomic {S} `{Source S} (source : S)
  (partial : gmap string Value) (e : error) (c : ConfigManager) :
  Source_Load source = (partial, Some e) ->
  exists err : error,
    ConfigManager_Load source c = (Some err, c) /\
    err = fmt_Errorf "failed to load configuration: %w" [ArgError e] /\
    errors_Unwrap err = Some e /\
    values (snd (ConfigManager_Load source c)) = values c.
Proof.
  intros Hs. eexists. unfold ConfigManager_Load. rewrite Hs.
  repeat split.
Qed.

(** C3. Set then Get: [Set(k, v)] returns nil, and the [Get(k)] that follows
    it returns [(v, true)]; a write to another key in between does not
    change that. *)
Theorem Set_Get_roundtrip (k : string) (v : Value) (c : ConfigManager) :
  fst (ConfigManager_Set k v c) = None /\
  fst (ConfigManager_Get k (snd (ConfigManager_Set k v c))) = (v, true) /\
  (forall (k' : string) (v' : Value),
      k' <> k ->
      fst (ConfigManager_Get k
             (snd (ConfigManager_Set k' v' (snd (ConfigManager_Set k v c)))))
      = (v, true)).
Proof.
  split; [reflexivity|].
  rewrite Get_run. cbn [fst]. split.
  - apply lookup_map_index.
    unfold ConfigManager_Set. run_method. apply lookup_insert_eq.
  - intros k' v' Hne. rewrite Get_run. cbn [fst]. apply lookup_map_index.
    unfold ConfigManager_Set. run_method.
    rewrite lookup_insert_ne by done. apply lookup_insert_eq.
Qed.

(** ** The string-slice accessor *)

(** When every item is a string the loop fills the slots from [i] on and
    touches nothing before them. *)
Lemma GetStringSlice_loop_strings (strs : list string) :
  forall (filled rest : list string),
    length rest = length strs ->
    GetStringSlice_loop (VString <$> strs) (length filled) (filled ++ rest)
    = Some (filled ++ strs).
Proof.
  induction strs as [|str strs IH]; intros filled rest Hlen.
  - destruct rest; [|discriminate]. reflexivity.
  - destruct rest as [|r rest]; [discriminate|].
    injection Hlen as Hlen. cbn [fmap list_fmap GetStringSlice_loop].
    replace (<[length filled:=str]> (filled ++ r :: rest))
      with ((filled ++ [str]) ++ rest).
    + replace (S (length filled)) with (length (filled ++ [str]))
        by (rewrite length_app; simpl; lia).
      rewrite (IH _ _ Hlen). by rewrite <- app_assoc.
    + rewrite <- app_assoc. simpl.
      rewrite insert_app_r_alt by lia. by rewrite Nat.sub_diag.
Qed.

(** One item that is no string ends the loop without a result. *)
Lemma GetStringSlice_loop_mixed (items : list Value) :
  Exists (fun item => is_string_value item = false) items ->
  forall i result, GetStringSlice_loop items i result = None.
Proof.
  induction items as [|item items IH]; intros Hex i result.
  - by apply Exists_nil in Hex.
  - destruct item; try reflexivity.
    apply Exists_cons in Hex as [Hhd|Htl]; [discriminate|].
    simpl. by apply IH.
Qed.

Lemma GetStringSlice_run (key : string) (c : ConfigManager) :
  ConfigManager_GetStringSlice key c
  = (match values c !! key with
     | Some (VStringSlice v) => (v, true)
     | Some (VAnySlice v) =>
         match GetStringSlice_loop (slice_elems v) 0 (make_strings (len v)) with
         | Some result => (slice_of result, true)
         | None => (slice_nil, false)
         end
     | _ => (slice_nil, false)
     end, c).
Proof.
  unfold ConfigManager_GetStringSlice, ConfigManager_Get, map_index.
  run_method.
  destruct (values c !! key) as [[]|]; simpl; try reflexivity.
  by destruct (GetStringSlice_loop _ _ _).
Qed.

(** C5. [GetStringSlice] coerces all or nothing: a stored [[]string] is
    returned as it is; a stored [[]any] whose items are all strings is
    returned as the slice of those strings; an absent key, a value of another
    type, or a [[]any] with an item that is no string gives [(nil, false)]. *)
Theorem GetStringSlice_all_or_nothing (key : string) (c : ConfigManager) :
  (forall s : slice string,
      values c !! key = Some (VStringSlice s) ->
      fst (ConfigManager_GetStringSlice key c) = (s, true)) /\
  (forall (a : slice Value) (strs : list string),
      values c !! key = Some (VAnySlice a) ->
      slice_elems a = VString <$> strs ->
      fst (ConfigManager_GetStringSlice key c) = (slice_of strs, true)) /\
  (values c !! key = None ->
   fst (ConfigManager_GetStringSlice key c) = (slice_nil, false)) /\
  (forall v : Value,
      values c !! key = Some v -> is_slice_value v = false ->
      fst (ConfigManager_GetStringSlice key c) = (slice_nil, false)) /\
  (forall a : slice Value,
      values c !! key = Some (VAnySlice a) ->
      Exists (fun item => is_string_value item = false) (slice_elems a) ->
      fst (ConfigManager_GetStringSlice key c) = (slice_nil, false)).
Proof.
  rewrite GetStringSlice_run. cbn [fst].
  repeat split.
  - intros s ->. reflexivity.
  - intros a strs -> Hel.
    unfold len, make_strings. rewrite Hel.
    pose proof (GetStringSlice_loop_strings strs []
                  (replicate (length (VString <$> strs)) "")) as Hloop.
    simpl in Hloop. rewrite Hloop; [done|].
    by rewrite length_replicate, length_fmap.
  - intros ->. reflexivity.
  - intros v -> Hv. by destruct v.
  - intros a -> Hex. by rewrite GetStringSlice_loop_mixed.
Qed.

(** ** The validator pipeline *)

Lemma Validate_run (c : ConfigManager) :
  ConfigManager_Validate c
  = (snd (Validate_loop (validators c) (values c)),
     {| values := fst (Validate_loop (validators c) (values c));
        validators := validators c |}).
Proof.
  unfold ConfigManager_Validate. run_method.
  by destruct (Validate_loop _ _).
Qed.

Lemma validator_run_eta (v : validator) (vals : gmap string Value) :
  validator_run v vals = (validator_leaves v vals, validator_call v vals).
Proof.
  unfold validator_leaves, validator_call.
  by destruct (validator_run v vals).
Qed.

Lemma left_by_cons (w : validator) (vs : list validator)
  (vals : gmap string Value) :
  left_by (w :: vs) vals = left_by vs (validator_leaves w vals).
Proof. reflexivity. Qed.


(** Validators that only read leave the map as it was, and accept at their
    turn when they accept the map as it was. *)
Lemma reads_only_in_turn (vs : list validator) (vals : gmap string Value) :
  Forall validator_reads_only vs ->
  left_by vs vals = vals /\
  (accept_in_turn vs vals <->
   Forall (fun w => validator_call w vals = None) vs).
Proof.
  induction 1 as [|w vs Hw _ [IHl IHa]]; [by split|].
  rewrite left_by_cons. cbn [accept_in_turn]. rewrite (Hw vals).
  split; [done|]. by rewrite IHa, Forall_cons.
Qed.

(** The map after the loop is what the validators it called left. *)
Lemma Validate_loop_left (vs : list validator) (vals : gmap string Value) :
  fst (Validate_loop vs vals) = left_by (Validate_calls vs vals) vals.
Proof.
  revert vals. induction vs as [|v vs IH]; intros vals; [done|].
  cbn [Validate_loop Validate_calls]. rewrite validator_run_eta.
  destruct (validator_call v vals); [done|].
  by rewrite left_by_cons, IH.
Qed.

Lemma Validate_loop_reads_only (vs : list validator)
  (vals : gmap string Value) :
  Forall validator_reads_only vs -> fst (Validate_loop vs vals) = vals.
Proof.
  induction 1 as [|v vs Hv _ IH]; [done|].
  cbn [Validate_loop]. rewrite validator_run_eta, (Hv vals).
  by destruct (validator_call v vals).
Qed.


(** ** RequiredValidator *)

Lemma RequiredValidator_loop_app (pre rest : list string)
  (vals : gmap string Value) :
  Forall (fun k => is_Some (vals !! k)) pre ->
  RequiredValidator_loop (pre ++ rest) vals = RequiredValidator_loop rest vals.
Proof.
  induction 1 as [|k pre [x Hk] _ IH]; [done|].
  simpl. unfold map_index. by rewrite Hk.
Qed.

Lemma RequiredValidator_loop_None (keys : list string)
  (vals : gmap string Value) :
  RequiredValidator_loop keys vals = None <->
  Forall (fun k => is_Some (vals !! k)) keys.
Proof.
  induction keys as [|k keys IH]; simpl.
  - split; [constructor|done].
  - unfold map_index. destruct (vals !! k) as [x|] eqn:Hk; simpl.
    + rewrite IH. split.
      * intros Hall. constructor; [by exists x|done].
      * by intros [_ Hall]%Forall_cons.
    + split; [done|]. intros [[x Hx] _]%Forall_cons. congruence.
Qed.

(** C8. [RequiredValidator] fails with the missing-key error that names the
    first key of its list, in the order given, that the mapping lacks, and
    succeeds exactly when the mapping has every key of the list. *)
Theorem RequiredValidator_first_missing (v : RequiredValidator)
  (vals : gmap string Value) :
  (forall (pre post : list string) (key : string),
      slice_elems (Keys v) = pre ++ key :: post ->
      Forall (fun k => is_Some (vals !! k)) pre ->
      vals !! key = None ->
      RequiredValidator_Validate v vals
      = Some (fmt_Errorf "required configuration key missing: %s"
                [ArgString key])) /\
  (RequiredValidator_Validate v vals = None <->
   Forall (fun k => is_Some (vals !! k)) (slice_elems (Keys v))).
Proof.
  unfold RequiredValidator_Validate. split.
  - intros pre post key -> Hpre Hkey.
    rewrite RequiredValidator_loop_app by done.
    simpl. unfold map_index. by rewrite Hkey.
  - apply RequiredValidator_loop_None.
Qed.

(** ** Typed accessors *)

Lemma GetString_run (key : string) (c : ConfigManager) :
  ConfigManager_GetString key c
  = (match values c !! key with
     | Some (VString str) => (str, true)
     | _ => ("", false)
     end, c).
Proof.
  unfold ConfigManager_GetString, ConfigManager_Get, map_index. run_method.
  by destruct (values c !! key) as [[]|].
Qed.

Lemma GetBool_run (key : string) (c : ConfigManager) :
  ConfigManager_GetBool key c
  = (match values c !! key with
     | Some (VBool b) => (b, true)
     | _ => (false, false)
     end, c).
Proof.
  unfold ConfigManager_GetBool, ConfigManager_Get, map_index. run_method.
  by destruct (values c !! key) as [[]|].
Qed.

Lemma GetFloat_run (key : string) (c : ConfigManager) :
  ConfigManager_GetFloat key c
  = (match values c !! key with
     | Some (VFloat v) => (v, true)
     | Some (VInt v) => (float64_of_int v, true)
     | _ => (S754_zero false, false)
     end, c).
Proof.
  unfold ConfigManager_GetFloat, ConfigManager_Get, map_index. run_method.
  by destruct (values c !! key) as [[]|].
Qed.

Lemma GetInt_run (overflow : float64 -> Z) (key : string)
  (c : ConfigManager) :
  ConfigManager_GetInt overflow key c
  = (match values c !! key with
     | Some (VInt v) => (v, true)
     | Some (VFloat v) => (int_of_float64 overflow v, true)
     | _ => (0%Z, false)
     end, c).
Proof.
  unfold ConfigManager_GetInt, ConfigManager_Get, map_index. run_method.
  by destruct (values c !! key) as [[]|].
Qed.

Lemma wrap_int_representable (z : Z) : int_representable (wrap_int z) = true.
Proof.
  unfold int_representable, wrap_int, int_min, int_max.
  pose proof (Z.mod_pos_bound (z + 2 ^ 63) (2 ^ 64) ltac:(lia)).
  apply andb_true_iff. split; apply Z.leb_le; lia.
Qed.

Lemma int_of_float64_representable (overflow : float64 -> Z) (f : float64) :
  int_representable (int_of_float64 overflow f) = true.
Proof.
  unfold int_of_float64.
  destruct (float64_trunc f) as [z|]; [|apply wrap_int_representable].
  destruct (int_representable z) eqn:Hz; [done|apply wrap_int_representable].
Qed.

(** C4 (as amended). [GetInt] returns [(n, true)] for a stored integer n;
    for a stored float it answers found = true with an [int], which is the
    float truncated toward zero whenever the float is finite and that
    integer fits [int]; it returns [(0, false)] when the key is absent or
    the value is of any other dynamic type. *)
Theorem GetInt_coercion (overflow : float64 -> Z) (key : string)
  (c : ConfigManager) :
  (forall n : Z,
      values c !! key = Some (VInt n) ->
      fst (ConfigManager_GetInt overflow key c) = (n, true)) /\
  (forall (f : float64) (t : Z),
      values c !! key = Some (VFloat f) ->
      float64_trunc f = Some t -> int_representable t = true ->
      fst (ConfigManager_GetInt overflow key c) = (t, true)) /\
  (forall f : float64,
      values c !! key = Some (VFloat f) ->
      snd (fst (ConfigManager_GetInt overflow key c)) = true /\
      int_representable (fst (fst (ConfigManager_GetInt overflow key c)))
      = true) /\
  (values c !! key = None ->
   fst (ConfigManager_GetInt overflow key c) = (0%Z, false)) /\
  (forall v : Value,
      values c !! key = Some v -> is_number_value v = false ->
      fst (ConfigManager_GetInt overflow key c) = (0%Z, false)).
Proof.
  rewrite GetInt_run. cbn [fst].
  split_and!.
  - intros n ->. reflexivity.
  - intros f t -> Ht Hrep. unfold int_of_float64. by rewrite Ht, Hrep.
  - intros f ->. split; [done|apply int_of_float64_representable].
  - intros ->. reflexivity.
  - intros v -> Hv. by destruct v.
Qed.

(** ** Reads leave the manager alone *)

(** The validators of the package only read the map. *)
Lemma package_validators_read_only (overflow : float64 -> Z) :
  (forall r : RequiredValidator, validator_reads_only (as_validator r)) /\
  (forall t : TypeValidator, validator_reads_only (as_validator t)) /\
  (forall r : RangeValidator,
      validator_reads_only (RangeValidator_value overflow r)).
Proof. by split_and!. Qed.

(** C9 (as amended). [Get], [GetString], [GetInt], [GetBool], [GetFloat]
    and [GetStringSlice] leave the mapping and the validator list as they
    were. [Validate] leaves the validator list as it was, and the mapping as
    the validators it called left it: unchanged when every registered
    validator only reads the map it is handed, as [RequiredValidator],
    [TypeValidator] and [RangeValidator] do. *)
Theorem reads_keep_store (overflow : float64 -> Z) (key : string)
  (c : ConfigManager) :
  same_store c (snd (ConfigManager_Get key c)) /\
  same_store c (snd (ConfigManager_GetString key c)) /\
  same_store c (snd (ConfigManager_GetInt overflow key c)) /\
  same_store c (snd (ConfigManager_GetBool key c)) /\
  same_store c (snd (ConfigManager_GetFloat key c)) /\
  same_store c (snd (ConfigManager_GetStringSlice key c)) /\
  validators (snd (ConfigManager_Validate c)) = validators c /\
  values (snd (ConfigManager_Validate c))
  = left_by (Validate_calls (validators c) (values c)) (values c) /\
  (Forall validator_reads_only (validators c) ->
   same_store c (snd (ConfigManager_Validate c))) /\
  (forall r : RequiredValidator, validator_reads_only (as_validator r)) /\
  (forall t : TypeValidator, validator_reads_only (as_validator t)) /\
  (forall r : RangeValidator,
      validator_reads_only (RangeValidator_value overflow r)).
Proof.
  rewrite Get_run, GetString_run, GetInt_run, GetBool_run, GetFloat_run,
    GetStringSlice_run, Validate_run.
  cbn [snd values validators].
  destruct (package_validators_read_only overflow) as (Hreq & Htype & Hrange).
  split_and!; try done.
  - apply Validate_loop_left.
  - intros Hro. split; [|done]. cbn [values].
    by apply Validate_loop_reads_only.
Qed.

(** C10. A store made by [New] has an empty mapping and no validator: every
    accessor answers found = false for every key, and [Validate] returns
    nil. *)
Theorem New_store_is_empty (overflow : float64 -> Z) (key : string) :
  values New = ∅ /\
  validators New = [] /\
  snd (fst (ConfigManager_Get key New)) = false /\
  snd (fst (ConfigManager_GetString key New)) = false /\
  snd (fst (ConfigManager_GetInt overflow key New)) = false /\
  snd (fst (ConfigManager_GetBool key New)) = false /\
  snd (fst (ConfigManager_GetFloat key New)) = false /\
  snd (fst (ConfigManager_GetStringSlice key New)) = false /\
  fst (ConfigManager_Validate New) = None.
Proof.
  rewrite Get_run, GetString_run, GetInt_run, GetBool_run, GetFloat_run,
    GetStringSlice_run, Validate_run.
  cbn [fst snd New values validators Validate_loop]. unfold map_index.
  rewrite lookup_empty. by repeat split.
Qed.

(** ** Facts on binary64 *)

Section Binary64.
Local Open Scope Z_scope.

(** The digit count of a mantissa bounds it on both sides. *)
Lemma digits2_pos_bounds (p : positive) :
  2 ^ (Zpos (digits2_pos p) - 1) <= Zpos p < 2 ^ Zpos (digits2_pos p).
Proof.
  induction p as [p IH|p IH|]; cbn [digits2_pos].
  - rewrite Pos2Z.inj_succ.
    replace (Z.succ (Zpos (digits2_pos p)) - 1) with (Zpos (digits2_pos p) - 1 + 1) by lia.
    rewrite Z.pow_succ_r by lia. rewrite Z.pow_add_r by lia. lia.
  - rewrite Pos2Z.inj_succ.
    replace (Z.succ (Zpos (digits2_pos p)) - 1) with (Zpos (digits2_pos p) - 1 + 1) by lia.
    rewrite Z.pow_succ_r by lia. rewrite Z.pow_add_r by lia. lia.
  - simpl. lia.
Qed.

(** Shifting a mantissa left by k digits multiplies it by 2^k. *)
Lemma iter_xO_value (p k : positive) :
  Zpos (Pos.iter xO p k) = Zpos p * 2 ^ Zpos k.
Proof.
  induction k as [|k IH] using Pos.peano_ind.
  - simpl. lia.
  - rewrite Pos.iter_succ, Pos2Z.inj_succ, Z.pow_succ_r by lia.
    rewrite Pos2Z.inj_xO, IH. lia.
Qed.

Lemma iter_xO_digits (p k : positive) :
  Zpos (digits2_pos (Pos.iter xO p k)) = Zpos (digits2_pos p) + Zpos k.
Proof.
  induction k as [|k IH] using Pos.peano_ind.
  - simpl. lia.
  - rewrite Pos.iter_succ. cbn [digits2_pos]. rewrite !Pos2Z.inj_succ, IH. lia.
Qed.

(** A 53-digit mantissa with an exponent in the normal range is kept as is. *)
Lemma binary_round_aux_exact (sx : bool) (m : positive) (e : Z) :
  Zpos (digits2_pos m) = 53 -> -1074 <= e <= 971 ->
  binary_round_aux float64_prec float64_emax sx (Zpos m) e loc_Exact
  = S754_finite sx m e.
Proof.
  intros Hd He.
  unfold binary_round_aux, shr_fexp, Zdigits2, shr_record_of_loc.
  assert (Hf : fexp float64_prec float64_emax (Zpos (digits2_pos m) + e) - e = 0).
  { unfold fexp, emin, float64_prec, float64_emax. lia. }
  rewrite Hf. cbn [shr shr_m loc_of_shr_record round_nearest_even Zdigits2].
  rewrite Hf. cbn [shr shr_m].
  unfold float64_emax, float64_prec.
  destruct (Z.leb_spec e (1024 - 53)); [done|lia].
Qed.

(** [float64(n)] is exact for an integer below 2^53. *)
Lemma binary_round_small_int (sx : bool) (p : positive) :
  Zpos p < 2 ^ 53 ->
  exists (m : positive) (e : Z),
    binary_round float64_prec float64_emax sx p 0 = S754_finite sx m e /\
    -52 <= e <= 0 /\ Zpos m = Zpos p * 2 ^ (- e) /\
    Zpos (digits2_pos m) = 53.
Proof.
  intros Hp.
  pose proof (digits2_pos_bounds p) as [Hlo _].
  assert (Hd : Zpos (digits2_pos p) <= 53).
  { destruct (Z.le_gt_cases (Zpos (digits2_pos p)) 53) as [|Hgt]; [done|].
    exfalso. assert (2 ^ 53 <= 2 ^ (Zpos (digits2_pos p) - 1))
      by (apply Z.pow_le_mono_r; lia). lia. }
  unfold binary_round, shl_align.
  assert (Hf : fexp float64_prec float64_emax (Zpos (digits2_pos p) + 0)
               = Zpos (digits2_pos p) - 53).
  { unfold fexp, emin, float64_prec, float64_emax. lia. }
  rewrite Hf, Z.sub_0_r.
  destruct (Zpos (digits2_pos p) - 53) as [|d|d] eqn:Hk; [|lia|].
  - exists p, 0. rewrite binary_round_aux_exact by lia.
    split_and!; [done|lia|lia|simpl; lia|lia].
  - exists (Pos.iter xO p d), (Zpos (digits2_pos p) - 53).
    assert (Hdig : Zpos (digits2_pos (Pos.iter xO p d)) = 53)
      by (rewrite iter_xO_digits; lia).
    rewrite Hk. rewrite binary_round_aux_exact by lia.
    split_and!; [done|lia|lia| |done].
    rewrite iter_xO_value. f_equal.
Qed.

(** [float64(n)] is the integer n itself when n is below 2^53 in
    magnitude: a canonical float without fraction whose integer part
    is n. *)
Lemma float64_of_int_exact (n : Z) :
  - 2 ^ 53 < n < 2 ^ 53 ->
  float64_valid (float64_of_int n) = true /\
  float64_has_fraction (float64_of_int n) = false /\
  float64_trunc (float64_of_int n) = Some n.
Proof.
  intros Hn.
  assert (Hpos : forall (sx : bool) (p : positive),
             Zpos p < 2 ^ 53 ->
             float64_valid (binary_round float64_prec float64_emax sx p 0)
             = true /\
             float64_has_fraction
               (binary_round float64_prec float64_emax sx p 0) = false /\
             float64_trunc (binary_round float64_prec float64_emax sx p 0)
             = Some (cond_Zopp sx (Zpos p))).
  { intros sx p Hp.
    destruct (binary_round_small_int sx p Hp) as (m & e & -> & He & Hm & Hd).
    assert (Hpow : 0 < 2 ^ (- e)) by (apply Z.pow_pos_nonneg; lia).
    assert (Hshift : Z.shiftl (Zpos m) e = Zpos p).
    { rewrite Z.shiftl_div_pow2, Hm by lia. apply Z.div_mul. lia. }
    split_and!.
    - unfold float64_valid, valid_binary, bounded, canonical_mantissa.
      rewrite Hd. apply andb_true_iff.
      unfold fexp, emin, float64_prec, float64_emax.
      split; [apply Z.eqb_eq|apply Z.leb_le]; lia.
    - cbn [float64_has_fraction]. rewrite Hshift.
      rewrite Z.shiftl_mul_pow2 by lia. rewrite <- Hm.
      by rewrite Z.eqb_refl.
    - cbn [float64_trunc]. by rewrite Hshift. }
  destruct n as [|p|p].
  - by split_and!.
  - apply (Hpos false p). lia.
  - apply (Hpos true p). lia.
Qed.

(** A canonical mantissa has at most 53 digits. *)
Lemma float64_valid_mantissa (s : bool) (m : positive) (e : Z) :
  float64_valid (S754_finite s m e) = true -> Zpos m < 2 ^ 53.
Proof.
  unfold float64_valid, valid_binary, bounded, canonical_mantissa.
  intros [Hc _]%andb_true_iff. apply Z.eqb_eq in Hc.
  pose proof (digits2_pos_bounds m) as [_ Hhi].
  assert (Zpos (digits2_pos m) <= 53)
    by (unfold fexp, emin, float64_prec, float64_emax in Hc; lia).
  assert (2 ^ Zpos (digits2_pos m) <= 2 ^ 53)
    by (apply Z.pow_le_mono_r; lia).
  lia.
Qed.

(** No float is below itself. *)
Lemma float64_lt_irrefl (f : float64) : SFltb f f = false.
Proof.
  unfold SFltb, SFcompare.
  destruct f as [| [] | |[] m e]; try done;
    rewrite Z.compare_refl;
    change (Pos.compare_cont Eq m m) with (Pos.compare m m);
    by rewrite Pos.compare_refl.
Qed.

(** Equal finite floats have the same exponent and mantissa. *)
Lemma SFeqb_finite_inv (s1 s2 : bool) (m1 m2 : positive) (e1 e2 : Z) :
  SFeqb (S754_finite s1 m1 e1) (S754_finite s2 m2 e2) = true ->
  e1 = e2 /\ m1 = m2.
Proof.
  unfold SFeqb, SFcompare.
  change (Pos.compare_cont Eq m1 m2) with (Pos.compare m1 m2).
  destruct s1, s2; try discriminate;
    destruct (Z.compare_spec e1 e2); try discriminate;
    destruct (Pos.compare_spec m1 m2); try discriminate; done.
Qed.

(** A float with a fractional part differs from its integer part converted
    back: [floatValue != float64(int(floatValue))]. *)
Lemma float64_fraction_not_integral (overflow : float64 -> Z) (f : float64) :
  float64_valid f = true ->
  float64_has_fraction f = true ->
  float64_ne f (float64_of_int (int_of_float64 overflow f)) = true.
Proof.
  destruct f as [| | |s m e]; try discriminate.
  intros Hvalid Hfrac.
  pose proof (float64_valid_mantissa s m e Hvalid) as Hm.
  cbn [float64_has_fraction] in Hfrac.
  apply negb_true_iff, Z.eqb_neq in Hfrac.
  assert (He : e < 0).
  { destruct (Z.lt_ge_cases e 0) as [|Hge]; [done|]. exfalso. apply Hfrac.
    rewrite (Z.shiftl_mul_pow2 _ e) by lia.
    rewrite Z.shiftl_div_pow2 by lia. rewrite Z.opp_involutive.
    apply Z.div_mul. lia. }
  rewrite (Z.shiftl_div_pow2 _ e) in Hfrac by lia.
  rewrite Z.shiftl_mul_pow2 in Hfrac by lia.
  assert (Hpow : 0 < 2 ^ (- e)) by (apply Z.pow_pos_nonneg; lia).
  assert (Ht : 0 <= Zpos m / 2 ^ (- e) <= Zpos m).
  { split; [apply Z.div_pos; lia|].
    apply Z.div_le_upper_bound; [lia|]. nia. }
  unfold float64_ne, int_of_float64. cbn [float64_trunc].
  rewrite (Z.shiftl_div_pow2 _ e) by lia.
  assert (Hrep : int_representable (cond_Zopp s (Zpos m / 2 ^ (- e))) = true).
  { unfold int_representable, int_min, int_max.
    apply andb_true_iff. split; apply Z.leb_le; destruct s; simpl; lia. }
  rewrite Hrep. apply negb_true_iff.
  destruct (Zpos m / 2 ^ (- e)) as [|p|p] eqn:Hq; [| |lia].
  - by destruct s.
  - destruct (binary_round_small_int s p ltac:(lia))
      as (m' & e' & Hr & He' & Hm' & _).
    assert (Hn : float64_of_int (cond_Zopp s (Zpos p)) = S754_finite s m' e').
    { unfold float64_of_int. by destruct s. }
    rewrite Hn.
    destruct (SFeqb (S754_finite s m e) (S754_finite s m' e')) eqn:Heq; [|done].
    apply SFeqb_finite_inv in Heq as [-> ->].
    exfalso. apply Hfrac. lia.
Qed.

End Binary64.

(** ** RangeValidator *)

Lemma RangeValidator_run (overflow : float64 -> Z) (v : RangeValidator)
  (vals : gmap string Value) :
  RangeValidator_Validate overflow v vals
  = match vals !! Key v with
    | None => None
    | Some x =>
        match RangeValidator_floatValue x with
        | None => Some (not_number_error v)
        | Some fv =>
            if float64_lt fv (Min v) || float64_gt fv (Max v)
            then Some (out_of_range_error v)
            else if IsInt v
                    && float64_ne fv
                         (float64_of_int (int_of_float64 overflow fv))
            then Some (not_integer_error v)
            else None
        end
    end.
Proof.
  unfold RangeValidator_Validate, map_index.
  by destruct (vals !! Key v).
Qed.

(** C7 (as amended). [RangeValidator] succeeds when the key is absent; fails
    when the value is neither an integer nor a float; fails when the value
    as the float64 the code compares (a float as stored, an integer
    converted to the nearest float64, which is the integer itself below
    2^53 in magnitude) is strictly below min or strictly above max, and
    passes the range check otherwise, the bounds themselves included; and,
    when isInt is set, fails on a float with a nonzero fractional part. With
    min = 1024, max = 65535 and isInt set it rejects 1023, 65536 and 8080.5
    and accepts 8080 and the two bounds. *)
Theorem RangeValidator_semantics (overflow : float64 -> Z)
  (v : RangeValidator) (vals : gmap string Value) :
  (vals !! Key v = None -> RangeValidator_Validate overflow v vals = None) /\
  (forall x : Value,
      vals !! Key v = Some x -> is_number_value x = false ->
      RangeValidator_Validate overflow v vals = Some (not_number_error v)) /\
  (forall (x : Value) (fv : float64),
      vals !! Key v = Some x -> RangeValidator_floatValue x = Some fv ->
      float64_lt fv (Min v) = true \/ float64_gt fv (Max v) = true ->
      RangeValidator_Validate overflow v vals = Some (out_of_range_error v)) /\
  (forall (x : Value) (fv : float64),
      vals !! Key v = Some x -> RangeValidator_floatValue x = Some fv ->
      float64_lt fv (Min v) = false -> float64_gt fv (Max v) = false ->
      IsInt v = false ->
      RangeValidator_Validate overflow v vals = None) /\
  (forall (x : Value) (fv : float64),
      vals !! Key v = Some x -> RangeValidator_floatValue x = Some fv ->
      fv = Min v \/ fv = Max v -> float64_gt (Min v) (Max v) = false ->
      IsInt v = false ->
      RangeValidator_Validate overflow v vals = None) /\
  (forall n : Z,
      (- 2 ^ 53 < n < 2 ^ 53)%Z ->
      exists fv : float64,
        RangeValidator_floatValue (VInt n) = Some fv /\
        float64_valid fv = true /\
        float64_has_fraction fv = false /\
        float64_trunc fv = Some n) /\
  (forall f : float64,
      vals !! Key v = Some (VFloat f) -> float64_valid f = true ->
      IsInt v = true -> float64_has_fraction f = true ->
      is_Some (RangeValidator_Validate overflow v vals) /\
      (float64_lt f (Min v) = false -> float64_gt f (Max v) = false ->
       RangeValidator_Validate overflow v vals
       = Some (not_integer_error v))) /\
  (forall x : Value,
      x ∈ [VInt 1023; VFloat (float64_lit 1023 0); VInt 65536;
           VFloat (float64_lit 65536 0)] ->
      RangeValidator_Validate overflow port_validator {[ "port" := x ]}
      = Some (out_of_range_error port_validator)) /\
  RangeValidator_Validate overflow port_validator
    {[ "port" := VFloat f8080_5 ]}
  = Some (not_integer_error port_validator) /\
  (forall x : Value,
      x ∈ [VInt 8080; VFloat (float64_lit 8080 0); VInt 1024; VInt 65535] ->
      RangeValidator_Validate overflow port_validator {[ "port" := x ]}
      = None).
Proof.
  split_and!.
  - intros Hk. by rewrite RangeValidator_run, Hk.
  - intros x Hk Hx. rewrite RangeValidator_run, Hk. by destruct x.
  - intros x fv Hk Hfv Hout. rewrite RangeValidator_run, Hk, Hfv.
    by destruct Hout as [-> | ->]; rewrite ?orb_true_r.
  - intros x fv Hk Hfv Hlt Hgt Hint.
    by rewrite RangeValidator_run, Hk, Hfv, Hlt, Hgt, Hint.
  - intros x fv Hk Hfv Hbound Hne Hint.
    rewrite RangeValidator_run, Hk, Hfv, Hint.
    unfold float64_gt in *.
    by destruct Hbound as [-> | ->];
      unfold float64_lt, float64_gt; rewrite ?float64_lt_irrefl, ?Hne.
  - intros n Hn. exists (float64_of_int n).
    split; [done|]. by apply float64_of_int_exact.
  - intros f Hk Hvalid Hint Hfrac.
    rewrite RangeValidator_run, Hk. cbn [RangeValidator_floatValue].
    rewrite Hint, (float64_fraction_not_integral overflow f Hvalid Hfrac).
    split.
    + by destruct (_ || _).
    + by intros -> ->.
  - intros x Hx. rewrite RangeValidator_run.
    repeat (apply elem_of_cons in Hx as [->|Hx]; [reflexivity|]).
    by apply elem_of_nil in Hx.
  - reflexivity.
  - intros x Hx. rewrite RangeValidator_run.
    repeat (apply elem_of_cons in Hx as [->|Hx]; [reflexivity|]).
    by apply elem_of_nil in Hx.
Qed.

(** ** Counterexamples to the claims as first stated *)

(** C4 as stated fails: the float 2^63 truncates to 2^63, which no [int]
    holds; [GetInt] answers found = true with another integer. *)
Lemma GetInt_float_beyond_int_counterexample :
  float64_valid f2p63 = true /\
  float64_trunc f2p63 = Some (2 ^ 63)%Z /\
  fst (ConfigManager_GetInt amd64_conversion_overflow "y"
         (snd (ConfigManager_Set "y" (VFloat f2p63) New)))
  = ((- 2 ^ 63)%Z, true) /\
  fst (ConfigManager_GetInt amd64_conversion_overflow "y"
         (snd (ConfigManager_Set "y" (VFloat f2p63) New)))
  <> ((2 ^ 63)%Z, true).
Proof.
  split_and!; [reflexivity|reflexivity|reflexivity|].
  rewrite GetInt_run. vm_compute. discriminate.
Qed.

(** C9 as stated fails: a registered validator is handed the map of the
    store itself; one that writes to it changes the mapping, here from
    "debug" alone to "injected" alone, while [Validate] returns nil. *)
Lemma Validate_written_store_counterexample :
  values written_store = {[ "debug" := VBool false ]} /\
  fst (ConfigManager_Validate written_store) = None /\
  values (snd (ConfigManager_Validate written_store))
  = {[ "injected" := VInt 1 ]} /\
  values (snd (ConfigManager_Validate written_store))
  <> values written_store.
Proof.
  split_and!; [reflexivity|reflexivity|by vm_compute|].
  intros Heq. apply (f_equal (fun m => m !! "debug")) in Heq.
  vm_compute in Heq. discriminate.
Qed.

(** C7 as stated fails: the integer 2^53 + 1 is strictly above a max of
    2^53, yet it is compared as the float 2^53 and passes. *)
Lemma RangeValidator_rounded_int_counterexample :
  float64_valid (Max wide_validator) = true /\
  float64_has_fraction (Max wide_validator) = false /\
  float64_trunc (Max wide_validator) = Some 9007199254740992%Z /\
  (9007199254740992 < 9007199254740993)%Z /\
  RangeValidator_Validate amd64_conversion_overflow wide_validator
    {[ "n" := VInt 9007199254740993 ]}
  = None.
Proof. split_and!; reflexivity. Qed.

(** ** Instances *)

Lemma Load_precedence_witness :
  fst (ConfigManager_Get "port"
         (snd (ConfigManager_Load override_source
                 (snd (ConfigManager_Load defaults_source debug_store)))))
  = (VInt 9090, true) /\
  fst (ConfigManager_Get "host"
         (snd (ConfigManager_Load override_source
                 (snd (ConfigManager_Load defaults_source debug_store)))))
  = (VString "localhost", true) /\
  fst (ConfigManager_Get "debug"
         (snd (ConfigManager_Load override_source
                 (snd (ConfigManager_Load defaults_source debug_store)))))
  = fst (ConfigManager_Get "debug" debug_store).
Proof.
  destruct (Load_precedence defaults_source override_source
              (Values defaults_source) (Values override_source) debug_store
              eq_refl eq_refl) as (_ & _ & Hkeys).
  destruct (Hkeys "port") as (Hport & _).
  destruct (Hkeys "host") as (_ & Hhost & _).
  destruct (Hkeys "debug") as (_ & _ & Hdebug).
  split_and!.
  - apply Hport. reflexivity.
  - apply Hhost; reflexivity.
  - apply Hdebug; reflexivity.
Defined.

Lemma Load_failure_atomic_witness :
  exists err : error,
    ConfigManager_Load failing_source debug_store = (Some err, debug_store) /\
    err = fmt_Errorf "failed to load configuration: %w"
            [ArgError (errors_New "load error")] /\
    errors_Unwrap err = Some (errors_New "load error") /\
    values (snd (ConfigManager_Load failing_source debug_store))
    = values debug_store.
Proof.
  apply (Load_failure_atomic failing_source ∅ (errors_New "load error")
           debug_store).
  reflexivity.
Defined.

Lemma Set_Get_roundtrip_witness :
  fst (ConfigManager_Get "port"
         (snd (ConfigManager_Set "host" (VString "localhost")
                 (snd (ConfigManager_Set "port" (VInt 8080) debug_store)))))
  = (VInt 8080, true).
Proof.
  destruct (Set_Get_roundtrip "port" (VInt 8080) debug_store)
    as (_ & _ & Hother).
  apply Hother. discriminate.
Defined.

Lemma GetInt_coercion_witness :
  fst (ConfigManager_GetInt amd64_conversion_overflow "x" typed_store)
  = (42%Z, true) /\
  fst (ConfigManager_GetInt amd64_conversion_overflow "y" typed_store)
  = (42%Z, true) /\
  fst (ConfigManager_GetInt amd64_conversion_overflow "z" typed_store)
  = (0%Z, false) /\
  fst (ConfigManager_GetInt amd64_conversion_overflow "w" typed_store)
  = (0%Z, false).
Proof.
  destruct (GetInt_coercion amd64_conversion_overflow "x" typed_store)
    as (Hx & _).
  destruct (GetInt_coercion amd64_conversion_overflow "y" typed_store)
    as (_ & Hy & _).
  destruct (GetInt_coercion amd64_conversion_overflow "z" typed_store)
    as (_ & _ & _ & _ & Hz).
  destruct (GetInt_coercion amd64_conversion_overflow "w" typed_store)
    as (_ & _ & _ & Hw & _).
  split_and!.
  - apply Hx. reflexivity.
  - apply (Hy f42_7); reflexivity.
  - apply (Hz (VString "hi")); reflexivity.
  - apply Hw. reflexivity.
Defined.

Lemma GetStringSlice_all_or_nothing_witness :
  fst (ConfigManager_GetStringSlice "tags" typed_store)
  = (slice_of ["a"; "b"], true) /\
  fst (ConfigManager_GetStringSlice "mixed" typed_store)
  = (slice_nil, false) /\
  fst (ConfigManager_GetStringSlice "z" typed_store) = (slice_nil, false).
Proof.
  destruct (GetStringSlice_all_or_nothing "tags" typed_store)
    as (_ & Htags & _).
  destruct (GetStringSlice_all_or_nothing "mixed" typed_store)
    as (_ & _ & _ & _ & Hmixed).
  destruct (GetStringSlice_all_or_nothing "z" typed_store)
    as (_ & _ & _ & Hz & _).
  split_and!.
  - apply (Htags (slice_of [VString "a"; VString "b"])); reflexivity.
  - apply (Hmixed (slice_of [VString "a"; VInt 1; VString "c"]));
      [reflexivity|].
    apply Exists_cons_tl, Exists_cons_hd. reflexivity.
  - apply (Hz (VString "hi")); reflexivity.
Defined.


Lemma reads_keep_store_witness :
  same_store checked_store (snd (ConfigManager_Validate checked_store)).
Proof.
  destruct (reads_keep_store amd64_conversion_overflow "port" checked_store)
    as (_ & _ & _ & _ & _ & _ & _ & _ & Hvalidate & _).
  apply Hvalidate.
  repeat (constructor; [intros vals; reflexivity|]). constructor.
Defined.

Lemma RangeValidator_semantics_witness :
  RangeValidator_Validate amd64_conversion_overflow port_validator
    {[ "port" := VFloat f8080_5 ]}
  = Some (not_integer_error port_validator) /\
  RangeValidator_Validate amd64_conversion_overflow port_validator
    {[ "port" := VInt 1023 ]}
  = Some (out_of_range_error port_validator) /\
  RangeValidator_Validate amd64_conversion_overflow port_validator
    {[ "host" := VString "localhost" ]}
  = None.
Proof.
  destruct (RangeValidator_semantics amd64_conversion_overflow port_validator
              {[ "port" := VFloat f8080_5 ]})
    as (_ & _ & _ & _ & _ & _ & Hfrac & _).
  destruct (RangeValidator_semantics amd64_conversion_overflow port_validator
              {[ "port" := VInt 1023 ]}) as (_ & _ & Hout & _).
  destruct (RangeValidator_semantics amd64_conversion_overflow port_validator
              {[ "host" := VString "localhost" ]}) as (Habsent & _).
  split_and!.
  - apply (Hfrac f8080_5); reflexivity.
  - apply (Hout (VInt 1023) (float64_of_int 1023)); [reflexivity..|].
    left. reflexivity.
  - apply Habsent. reflexivity.
Defined.

Lemma RequiredValidator_first_missing_witness :
  RequiredValidator_Validate {| Keys := slice_of ["port"; "host"] |}
    {[ "port" := VInt 8080 ]}
  = Some (fmt_Errorf "required configuration key missing: %s"
            [ArgString "host"]).
Proof.
  destruct (RequiredValidator_first_missing
              {| Keys := slice_of ["port"; "host"] |}
              {[ "port" := VInt 8080 ]}) as (Hmissing & _).
  apply (Hmissing ["port"] [] "host").
  - reflexivity.
  - constructor; [|constructor]. exists (VInt 8080). reflexivity.
  - reflexivity.
Defined.

(** * Further properties of the package *)

(** ** Set and Load as operations on the mapping *)

Lemma ConfigManager_eta (c : ConfigManager) :
  {| values := values c; validators := validators c |} = c.
Proof. by destruct c. Qed.

Lemma Set_run (key : string) (value : Value) (c : ConfigManager) :
  ConfigManager_Set key value c
  = (None, {| values := <[key:=value]> (values c);
              validators := validators c |}).
Proof. reflexivity. Qed.

(** The range loop of [Load] computes the union in which the produced
    mapping has priority. *)
Lemma merge_union (old new : gmap string Value) :
  map_fold (fun k v acc => <[k:=v]> acc) old new = new ∪ old.
Proof.
  apply map_eq. intros k. rewrite merge_lookup.
  destruct (new !! k) as [v|] eqn:Hk.
  - symmetry. by apply lookup_union_Some_l.
  - symmetry. by apply lookup_union_r.
Qed.

Lemma Load_run {S} `{Source S} (source : S) (c : ConfigManager) :
  ConfigManager_Load source c
  = match Source_Load source with
    | (_, Some err) =>
        (Some (fmt_Errorf "failed to load configuration: %w" [ArgError err]),
         c)
    | (vals, None) =>
        (None, {| values := vals ∪ values c; validators := validators c |})
    end.
Proof.
  unfold ConfigManager_Load.
  destruct (Source_Load source) as [vals [err|]]; [done|].
  run_method. by rewrite merge_union.
Qed.

(** X1. A second [Set] of a key replaces the first, and two [Set]s of
    different keys can be done in either order. *)
Theorem Set_overwrites_and_commutes (c : ConfigManager)
  (k1 k2 : string) (v1 v2 : Value) :
  snd (ConfigManager_Set k1 v2 (snd (ConfigManager_Set k1 v1 c)))
  = snd (ConfigManager_Set k1 v2 c) /\
  (k1 <> k2 ->
   snd (ConfigManager_Set k2 v2 (snd (ConfigManager_Set k1 v1 c)))
   = snd (ConfigManager_Set k1 v1 (snd (ConfigManager_Set k2 v2 c)))).
Proof.
  rewrite !Set_run. cbn [snd values validators]. split.
  - by rewrite insert_insert_eq.
  - intros Hne. f_equal. by apply insert_insert_ne.
Qed.

(** X2. A [Load] that succeeds leaves as mapping the union of the produced
    mapping and the old one, the produced entries winning, and keeps the
    validators; producing no entry it changes nothing, and producing one
    entry it is the [Set] of that entry. *)
Theorem Load_is_overlay {S} `{Source S} (source : S)
  (vals : gmap string Value) (c : ConfigManager) :
  Source_Load source = (vals, None) ->
  ConfigManager_Load source c
  = (None, {| values := vals ∪ values c; validators := validators c |}) /\
  (vals = ∅ -> snd (ConfigManager_Load source c) = c) /\
  (forall (k : string) (v : Value),
      vals = {[ k := v ]} ->
      ConfigManager_Load source c = ConfigManager_Set k v c).
Proof.
  intros Hs. rewrite Load_run, Hs. split_and!.
  - done.
  - intros ->. cbn [snd]. rewrite (left_id_L ∅ (∪)). apply ConfigManager_eta.
  - intros k v ->. rewrite Set_run. by rewrite insert_union_singleton_l.
Qed.

(** X3. Loading the same production twice is loading it once, and two
    sources that produce no key in common can be loaded in either order. *)
Theorem Load_idempotent_and_commutes {SA SB} `{Source SA} `{Source SB}
  (A : SA) (B : SB) (mA mB : gmap string Value) (c : ConfigManager) :
  Source_Load A = (mA, None) ->
  Source_Load B = (mB, None) ->
  snd (ConfigManager_Load A (snd (ConfigManager_Load A c)))
  = snd (ConfigManager_Load A c) /\
  (mA ##ₘ mB ->
   snd (ConfigManager_Load B (snd (ConfigManager_Load A c)))
   = snd (ConfigManager_Load A (snd (ConfigManager_Load B c)))).
Proof.
  intros HA HB. rewrite !Load_run, HA, HB. cbn [snd values validators].
  split.
  - f_equal. by rewrite (assoc_L (∪)), (idemp_L (∪)).
  - intros Hdisj. f_equal.
    rewrite !(assoc_L (∪)). f_equal. symmetry. by apply map_union_comm.
Qed.

(** ** What no sequence of calls undoes *)

(** With validators that only read, [Validate] leaves the manager as it
    was. *)
Lemma Validate_reads_only_same (c : ConfigManager) :
  Forall validator_reads_only (validators c) ->
  snd (ConfigManager_Validate c) = c.
Proof.
  intros Hro. rewrite Validate_run. cbn [snd].
  rewrite (Validate_loop_reads_only _ _ Hro). apply ConfigManager_eta.
Qed.

Lemma after_call_keeps (overflow : float64 -> Z) (c : ConfigManager)
  (op : call) :
  validators c `prefix_of` validators (after_call overflow c op) /\
  (op <> CallValidate \/ Forall validator_reads_only (validators c) ->
   forall k : string,
     is_Some (values c !! k) ->
     is_Some (values (after_call overflow c op) !! k)) /\
  (Forall validator_reads_only (validators c) -> call_reads_only op ->
   Forall validator_reads_only (validators (after_call overflow c op))).
Proof.
  destruct op as [key|key|key|key|key|key|key value|s| |v]; cbn [after_call];
    rewrite ?Get_run, ?GetString_run, ?GetInt_run, ?GetBool_run,
      ?GetFloat_run, ?GetStringSlice_run, ?Set_run;
    cbn [snd values validators]; try done.
  - split_and!; [done| |done]. intros _ k Hk.
    destruct (decide (key = k)) as [->|Hne].
    + rewrite lookup_insert_eq. by eexists.
    + by rewrite lookup_insert_ne.
  - rewrite Load_run.
    destruct (Source_Load (src_value s)) as [vals [err|]];
      cbn [snd values validators]; [done|].
    split_and!; [done| |done]. intros _ k [x Hk].
    destruct (vals !! k) as [y|] eqn:Hv.
    + exists y. by apply lookup_union_Some_l.
    + exists x. by rewrite lookup_union_r.
  - split_and!.
    + rewrite Validate_run. by cbn [snd validators].
    + intros [Hne|Hro]; [done|]. by rewrite Validate_reads_only_same.
    + intros Hro _. by rewrite Validate_reads_only_same.
  - unfold ConfigManager_AddValidator. run_method. split_and!.
    + by apply prefix_app_r.
    + done.
    + intros Hro Hv. apply Forall_app. split; [done|]. by constructor.
Qed.

Lemma after_calls_keeps (overflow : float64 -> Z) (ops : list call)
  (c : ConfigManager) :
  validators c `prefix_of` validators (after_calls overflow c ops) /\
  (Forall validator_reads_only (validators c) ->
   Forall call_reads_only ops ->
   forall k : string,
     is_Some (values c !! k) ->
     is_Some (values (after_calls overflow c ops) !! k)) /\
  (CallValidate ∉ ops ->
   forall k : string,
     is_Some (values c !! k) ->
     is_Some (values (after_calls overflow c ops) !! k)).
Proof.
  unfold after_calls. revert c.
  induction ops as [|op ops IH]; intros c; [done|].
  cbn [foldl].
  destruct (after_call_keeps overflow c op) as (Hv & Hk & Hro).
  destruct (IH (after_call overflow c op)) as (IHv & IHro & IHno).
  split_and!.
  - by etrans.
  - intros Hc [Hop Hops]%Forall_cons k Hin.
    apply IHro; [by apply Hro|done|]. apply Hk; [by right|done].
  - intros [Hop Hops]%not_elem_of_cons k Hin.
    apply IHno; [done|]. apply Hk; [by left|done].
Qed.

(** X4. No call removes a validator: after any sequence of calls the
    validators registered before are still the first of the list, in their
    order. No call of the manager removes a key either, except [Validate]
    through a validator that writes: every key the mapping had is still in
    it after a sequence of calls when the validators registered before and
    during it only read, and after a sequence without [Validate]. *)
Theorem calls_keep_keys_and_validators (overflow : float64 -> Z)
  (ops : list call) (c : ConfigManager) :
  validators c `prefix_of` validators (after_calls overflow c ops) /\
  (Forall validator_reads_only (validators c) ->
   Forall call_reads_only ops ->
   forall k : string,
     is_Some (values c !! k) ->
     is_Some (values (after_calls overflow c ops) !! k)) /\
  (CallValidate ∉ ops ->
   forall k : string,
     is_Some (values c !! k) ->
     is_Some (values (after_calls overflow c ops) !! k)).
Proof. apply after_calls_keeps. Qed.

(** X5. Once [RequiredValidator] accepts the mapping of a manager it accepts
    it after any further sequence of calls, when the validators registered
    before and during the sequence only read the mapping. *)
Theorem RequiredValidator_stays_satisfied (overflow : float64 -> Z)
  (v : RequiredValidator) (ops : list call) (c : ConfigManager) :
  Forall validator_reads_only (validators c) ->
  Forall call_reads_only ops ->
  RequiredValidator_Validate v (values c) = None ->
  RequiredValidator_Validate v (values (after_calls overflow c ops)) = None.
Proof.
  intros Hro Hops.
  unfold RequiredValidator_Validate. rewrite !RequiredValidator_loop_None.
  destruct (after_calls_keeps overflow ops c) as (_ & Hkeys & _).
  intros Hall. eapply Forall_impl; [exact Hall|]. intros k.
  by apply Hkeys.
Qed.

(** ** What a nil result of Validate tells *)

Lemma Validate_loop_None (vs : list validator) (vals : gmap string Value) :
  snd (Validate_loop vs vals) = None <-> accept_in_turn vs vals.
Proof.
  revert vals. induction vs as [|v vs IH]; intros vals.
  - by split.
  - cbn [Validate_loop accept_in_turn]. rewrite validator_run_eta.
    destruct (validator_call v vals) as [err|] eqn:Hv.
    + split; [done|]. by intros [? _].
    + rewrite IH. split; [by split|by intros [_ ?]].
Qed.

Lemma Validate_loop_Some (vs : list validator) (vals : gmap string Value)
  (err : error) :
  snd (Validate_loop vs vals) = Some err ->
  exists (pre post : list validator) (v : validator),
    vs = pre ++ v :: post /\
    accept_in_turn pre vals /\
    validator_call v (left_by pre vals) = Some err.
Proof.
  revert vals. induction vs as [|v vs IH]; intros vals; [done|].
  cbn [Validate_loop]. rewrite validator_run_eta.
  destruct (validator_call v vals) as [err'|] eqn:Hv.
  - intros [= ->]. by exists [], vs, v.
  - intros (pre & post & w & -> & Hpre & Hw)%IH.
    exists (v :: pre), post, w. by rewrite left_by_cons.
Qed.

Lemma Validate_loop_snoc (vs : list validator) (v : validator)
  (vals : gmap string Value) :
  snd (Validate_loop (vs ++ [v]) vals)
  = match snd (Validate_loop vs vals) with
    | Some err => Some err
    | None => validator_call v (fst (Validate_loop vs vals))
    end.
Proof.
  revert vals. induction vs as [|w vs IH]; intros vals.
  - cbn [app Validate_loop fst snd]. rewrite validator_run_eta.
    by destruct (validator_call v vals).
  - cbn [app Validate_loop]. rewrite validator_run_eta.
    by destruct (validator_call w vals).
Qed.

(** A nil result of [Validate] over validators that only read is a nil
    result of each of them on the mapping. *)
Lemma Validate_None_elem (c : ConfigManager) (v : validator) :
  fst (ConfigManager_Validate c) = None ->
  Forall validator_reads_only (validators c) ->
  v ∈ validators c ->
  validator_call v (values c) = None.
Proof.
  rewrite Validate_run. cbn [fst]. rewrite Validate_loop_None.
  intros Hall Hro Hin.
  apply (reads_only_in_turn _ _ Hro) in Hall.
  rewrite Forall_forall in Hall. by apply Hall.
Qed.

(** X6. [Validate] returns nil exactly when every registered validator
    accepts the mapping at its turn, that is as the validators before it
    left it, and an error it returns is the error of a registered validator
    at its turn, those before it having accepted. With validators that only
    read, the mapping at every turn is the mapping of the store. *)
Theorem Validate_nil_iff_all_accept (c : ConfigManager) :
  (fst (ConfigManager_Validate c) = None <->
   accept_in_turn (validators c) (values c)) /\
  (forall err : error,
      fst (ConfigManager_Validate c) = Some err ->
      exists (pre post : list validator) (v : validator),
        validators c = pre ++ v :: post /\
        accept_in_turn pre (values c) /\
        validator_call v (left_by pre (values c)) = Some err) /\
  (Forall validator_reads_only (validators c) ->
   (fst (ConfigManager_Validate c) = None <->
    Forall (fun w => validator_call w (values c) = None) (validators c)) /\
   (forall err : error,
       fst (ConfigManager_Validate c) = Some err ->
       exists v : validator,
         v ∈ validators c /\ validator_call v (values c) = Some err)).
Proof.
  rewrite Validate_run. cbn [fst]. split_and!.
  - apply Validate_loop_None.
  - intros err. apply Validate_loop_Some.
  - intros Hro. split.
    + rewrite Validate_loop_None.
      by apply (reads_only_in_turn (validators c) (values c) Hro).
    + intros err (pre & post & v & Hvs & _ & Hv)%Validate_loop_Some.
      rewrite Hvs in Hro. apply Forall_app in Hro as [Hpre _].
      destruct (reads_only_in_turn pre (values c) Hpre) as [Hleft _].
      rewrite Hleft in Hv. exists v. split; [|done].
      rewrite Hvs. apply elem_of_app. right. left.
Qed.

(** X7. Registering a validator never hides a failure: [Validate] after
    [AddValidator(v)] returns the error it returned before when there was
    one, and otherwise what v answers on the mapping as the earlier
    validators left it, which is the mapping of the store when they only
    read. *)
Theorem Validate_after_AddValidator (v : validator) (c : ConfigManager) :
  fst (ConfigManager_Validate (snd (ConfigManager_AddValidator v c)))
  = match fst (ConfigManager_Validate c) with
    | Some err => Some err
    | None => validator_call v (values (snd (ConfigManager_Validate c)))
    end /\
  (Forall validator_reads_only (validators c) ->
   fst (ConfigManager_Validate (snd (ConfigManager_AddValidator v c)))
   = match fst (ConfigManager_Validate c) with
     | Some err => Some err
     | None => validator_call v (values c)
     end).
Proof.
  assert (Hsnoc :
    fst (ConfigManager_Validate (snd (ConfigManager_AddValidator v c)))
    = match fst (ConfigManager_Validate c) with
      | Some err => Some err
      | None => validator_call v (values (snd (ConfigManager_Validate c)))
      end).
  { rewrite !Validate_run. unfold ConfigManager_AddValidator. run_method.
    apply Validate_loop_snoc. }
  split; [exact Hsnoc|].
  intros Hro. rewrite Hsnoc. by rewrite Validate_reads_only_same.
Qed.

Lemma GoType_eqb_eq (a b : option GoType) : GoType_eqb a b = true <-> a = b.
Proof.
  destruct a as [[]|], b as [[]|]; simpl; try (split; [done|congruence]);
    try done.
  rewrite String.eqb_eq. split; congruence.
Qed.

Lemma TypeValidator_run (t : TypeValidator) (vals : gmap string Value) :
  TypeValidator_Validate t vals
  = match vals !! TypeValidator_Key t with
    | None => None
    | Some x =>
        if GoType_eqb (reflect_TypeOf x) (TypeValidator_Type t) then None
        else Some (fmt_Errorf "invalid type for key %s: expected %v, got %v"
                     [ArgString (TypeValidator_Key t);
                      ArgType (TypeValidator_Type t);
                      ArgType (reflect_TypeOf x)])
    end.
Proof.
  unfold TypeValidator_Validate, map_index.
  destruct (vals !! TypeValidator_Key t); [|done]. simpl.
  by destruct (GoType_eqb _ _).
Qed.

(** X8. [TypeValidator] accepts exactly the mappings where its key is absent
    or holds a value of exactly its type; it coerces nothing, so an integer
    that [GetFloat] reads as a float is rejected where a float64 is
    expected. *)
Theorem TypeValidator_exact_type (t : TypeValidator) (c : ConfigManager) :
  (TypeValidator_Validate t (values c) = None <->
   values c !! TypeValidator_Key t = None \/
   exists x : Value,
     values c !! TypeValidator_Key t = Some x /\
     reflect_TypeOf x = TypeValidator_Type t) /\
  (forall n : Z,
      values c !! TypeValidator_Key t = Some (VInt n) ->
      TypeValidator_Type t = Some TFloat64 ->
      fst (ConfigManager_GetFloat (TypeValidator_Key t) c)
      = (float64_of_int n, true) /\
      TypeValidator_Validate t (values c)
      = Some (fmt_Errorf "invalid type for key %s: expected %v, got %v"
                [ArgString (TypeValidator_Key t); ArgType (Some TFloat64);
                 ArgType (Some TInt)])).
Proof.
  rewrite TypeValidator_run, GetFloat_run. cbn [fst]. split.
  - destruct (values c !! TypeValidator_Key t) as [x|] eqn:Hk.
    + destruct (GoType_eqb _ _) eqn:Heq.
      * apply GoType_eqb_eq in Heq. split; [|done].
        intros _. right. by exists x.
      * split; [done|]. intros [|(y & [= <-] & Hy)]; [done|].
        apply GoType_eqb_eq in Hy. congruence.
    + split; [|done]. intros _. by left.
  - intros n -> ->. done.
Qed.

(** X9. After a [Validate] that returned nil, with registered validators
    that only read the mapping, every key required by a registered
    [RequiredValidator] is found by [Get], and every key checked by a
    registered [TypeValidator] that is present holds a value of the
    expected type. *)
Theorem Validate_nil_guarantees_keys (c : ConfigManager) :
  fst (ConfigManager_Validate c) = None ->
  Forall validator_reads_only (validators c) ->
  (forall (r : RequiredValidator) (k : string),
      as_validator r ∈ validators c -> k ∈ slice_elems (Keys r) ->
      snd (fst (ConfigManager_Get k (snd (ConfigManager_Validate c))))
      = true) /\
  (forall (t : TypeValidator) (x : Value),
      as_validator t ∈ validators c ->
      values (snd (ConfigManager_Validate c)) !! TypeValidator_Key t
      = Some x ->
      reflect_TypeOf x = TypeValidator_Type t).
Proof.
  intros Hnil Hro. rewrite (Validate_reads_only_same c Hro). split.
  - intros r k Hr Hk.
    pose proof (Validate_None_elem c _ Hnil Hro Hr) as Hcall.
    change (RequiredValidator_loop (slice_elems (Keys r)) (values c) = None)
      in Hcall.
    rewrite RequiredValidator_loop_None, Forall_forall in Hcall.
    destruct (Hcall k Hk) as [x Hx].
    rewrite Get_run. cbn [fst]. unfold map_index. by rewrite Hx.
  - intros t x Ht Hx.
    pose proof (Validate_None_elem c _ Hnil Hro Ht) as Hcall.
    change (TypeValidator_Validate t (values c) = None) in Hcall.
    rewrite TypeValidator_run, Hx in Hcall.
    destruct (GoType_eqb _ _) eqn:Heq; [|done].
    by apply GoType_eqb_eq.
Qed.

(** ** RangeValidator on integers, on NaN and on an empty interval *)

Section Binary64Order.
Local Open Scope Z_scope.

(** A float that is zero or finite equals itself. *)
Lemma SFeqb_refl (f : float64) :
  float64_trunc f <> None -> SFeqb f f = true.
Proof.
  unfold SFeqb, SFcompare.
  destruct f as [| | |[] m e]; try done;
    rewrite Z.compare_refl;
    change (Pos.compare_cont Eq m m) with (Pos.compare m m);
    by rewrite Pos.compare_refl.
Qed.

(** Every comparison with NaN is false. *)
Lemma SFltb_nan (f : float64) :
  SFltb S754_nan f = false /\ SFltb f S754_nan = false /\
  SFeqb S754_nan f = false.
Proof. by destruct f as [| | |[] m e]. Qed.

Lemma SFltb_rank (x y : float64) :
  x <> S754_nan -> y <> S754_nan ->
  SFltb x y = true <-> rank_lt (float64_rank x) (float64_rank y).
Proof.
  intros Hx Hy. unfold SFltb, SFcompare, rank_lt.
  destruct x as [[]|[]| |[] m1 e1], y as [[]|[]| |[] m2 e2];
    try done; cbn [float64_rank fst snd];
    try (split; [intros _; lia | done]);
    try (split; [done | lia]);
    change (Pos.compare_cont Eq m1 m2) with (Pos.compare m1 m2);
    destruct (Z.compare_spec e1 e2); destruct (Pos.compare_spec m1 m2);
    cbn [CompOpp]; split; try done; try lia.
Qed.

(** With the maximum below the minimum no number is in the interval. *)
Lemma empty_interval (lo hi f : float64) :
  SFltb hi lo = true -> f <> S754_nan ->
  SFltb f lo || SFltb hi f = true.
Proof.
  intros Hempty Hf.
  assert (Hlo : lo <> S754_nan) by (intros ->; by destruct hi as [| | |[] ? ?]).
  assert (Hhi : hi <> S754_nan) by (intros ->; done).
  apply (SFltb_rank hi lo Hhi Hlo) in Hempty.
  destruct (SFltb f lo) eqn:H1; [done|].
  destruct (SFltb hi f) eqn:H2; [done|]. exfalso.
  assert (Hn1 : ~ rank_lt (float64_rank f) (float64_rank lo))
    by (rewrite <- (SFltb_rank f lo Hf Hlo); congruence).
  assert (Hn2 : ~ rank_lt (float64_rank hi) (float64_rank f))
    by (rewrite <- (SFltb_rank hi f Hhi Hf); congruence).
  unfold rank_lt in *.
  destruct (float64_rank f) as [[a1 a2] a3],
           (float64_rank lo) as [[b1 b2] b3],
           (float64_rank hi) as [[c1 c2] c3].
  cbn [fst snd] in *. lia.
Qed.

End Binary64Order.

(** [float64(n)] read back with [int] is n below 2^53 in magnitude. *)
Lemma int_of_float64_of_int (overflow : float64 -> Z) (n : Z) :
  (- 2 ^ 53 < n < 2 ^ 53)%Z ->
  int_of_float64 overflow (float64_of_int n) = n.
Proof.
  intros Hn. destruct (float64_of_int_exact n Hn) as (_ & _ & Ht).
  unfold int_of_float64. rewrite Ht.
  assert (Hrep : int_representable n = true).
  { unfold int_representable, int_min, int_max.
    apply andb_true_iff. split; apply Z.leb_le; lia. }
  by rewrite Hrep.
Qed.

(** X10. An integer below 2^53 in magnitude always passes the integrality
    check of [RangeValidator]: with or without [IsInt] it is rejected
    exactly when its float64 is below min or above max. *)
Theorem RangeValidator_integer_is_integral (overflow : float64 -> Z)
  (v : RangeValidator) (vals : gmap string Value) (n : Z) :
  vals !! Key v = Some (VInt n) ->
  (- 2 ^ 53 < n < 2 ^ 53)%Z ->
  RangeValidator_Validate overflow v vals
  = if float64_lt (float64_of_int n) (Min v)
       || float64_gt (float64_of_int n) (Max v)
    then Some (out_of_range_error v)
    else None.
Proof.
  intros Hk Hn. rewrite RangeValidator_run, Hk.
  cbn [RangeValidator_floatValue].
  destruct (_ || _); [done|].
  rewrite (int_of_float64_of_int overflow n Hn).
  unfold float64_ne. rewrite SFeqb_refl.
  - by rewrite andb_false_r.
  - destruct (float64_of_int_exact n Hn) as (_ & _ & ->). done.
Qed.

(** X11. A NaN is never out of range: [RangeValidator] accepts a NaN value
    unless [IsInt] is set, whatever the bounds; and a bound that is NaN
    rejects nothing. *)
Theorem RangeValidator_NaN (overflow : float64 -> Z)
  (v : RangeValidator) (vals : gmap string Value) :
  (vals !! Key v = Some (VFloat S754_nan) ->
   RangeValidator_Validate overflow v vals
   = if IsInt v then Some (not_integer_error v) else None) /\
  (forall (x : Value) (fv : float64),
      vals !! Key v = Some x -> RangeValidator_floatValue x = Some fv ->
      Min v = S754_nan -> Max v = S754_nan ->
      RangeValidator_Validate overflow v vals <> Some (out_of_range_error v)).
Proof.
  split.
  - intros Hk. rewrite RangeValidator_run, Hk.
    cbn [RangeValidator_floatValue].
    unfold float64_lt, float64_gt, float64_ne.
    destruct (SFltb_nan (Min v)) as (-> & _ & _).
    destruct (SFltb_nan (Max v)) as (_ & -> & _).
    destruct (SFltb_nan (float64_of_int (int_of_float64 overflow S754_nan)))
      as (_ & _ & ->).
    by destruct (IsInt v).
  - intros x fv Hk Hfv Hmin Hmax. rewrite RangeValidator_run, Hk, Hfv.
    unfold float64_lt, float64_gt. rewrite Hmin, Hmax.
    destruct (SFltb_nan fv) as (-> & -> & _). simpl.
    by destruct (_ && _).
Qed.

(** X12. A [RangeValidator] whose max is below its min rejects every
    number that is present, NaN apart. *)
Theorem RangeValidator_empty_interval (overflow : float64 -> Z)
  (v : RangeValidator) (vals : gmap string Value)
  (x : Value) (fv : float64) :
  float64_lt (Max v) (Min v) = true ->
  vals !! Key v = Some x ->
  RangeValidator_floatValue x = Some fv ->
  fv <> S754_nan ->
  RangeValidator_Validate overflow v vals = Some (out_of_range_error v).
Proof.
  intros Hempty Hk Hfv Hnan. rewrite RangeValidator_run, Hk, Hfv.
  unfold float64_lt, float64_gt in *.
  by rewrite (empty_interval (Min v) (Max v) fv Hempty Hnan).
Qed.

(** X13. After a [Validate] that returned nil, with registered validators
    that only read the mapping, a key checked by a registered
    [RangeValidator] that is present holds a number neither below min nor
    above max as the validator compares it; with [IsInt], a float there has
    no fractional part and [GetInt] returns an integer equal to it. *)
Theorem Validate_nil_guarantees_range (overflow : float64 -> Z)
  (c : ConfigManager) (r : RangeValidator) (x : Value) :
  fst (ConfigManager_Validate c) = None ->
  Forall validator_reads_only (validators c) ->
  RangeValidator_value overflow r ∈ validators c ->
  values (snd (ConfigManager_Validate c)) !! Key r = Some x ->
  exists fv : float64,
    RangeValidator_floatValue x = Some fv /\
    float64_lt fv (Min r) = false /\
    float64_gt fv (Max r) = false /\
    (forall f : float64,
        IsInt r = true -> x = VFloat f -> float64_valid f = true ->
        float64_has_fraction f = false /\
        SFeqb f (float64_of_int
                   (fst (fst (ConfigManager_GetInt overflow (Key r)
                                (snd (ConfigManager_Validate c))))))
        = true).
Proof.
  intros Hnil Hro Hr. rewrite (Validate_reads_only_same c Hro). intros Hx.
  pose proof (Validate_None_elem c _ Hnil Hro Hr) as Hcall.
  change (RangeValidator_Validate overflow r (values c) = None) in Hcall.
  rewrite RangeValidator_run, Hx in Hcall.
  destruct (RangeValidator_floatValue x) as [fv|] eqn:Hfv; [|done].
  exists fv. split; [done|].
  destruct (float64_lt fv (Min r)) eqn:Hlt; [done|].
  destruct (float64_gt fv (Max r)) eqn:Hgt; [done|].
  split; [done|]. split; [done|].
  intros f Hint -> Hvalid. injection Hfv as <-.
  rewrite Hint in Hcall. cbn [orb andb] in Hcall.
  destruct (float64_ne f _) eqn:Hne; [done|].
  rewrite GetInt_run, Hx. cbn [fst]. split.
  - destruct (float64_has_fraction f) eqn:Hfrac; [|done].
    by rewrite (float64_fraction_not_integral overflow f Hvalid Hfrac) in Hne.
  - unfold float64_ne in Hne. by apply negb_false_iff in Hne.
Qed.

(** ** The typed accessors against Get *)

(** X14. [GetString] and [GetBool] coerce nothing: each finds a value
    exactly when the key holds a value of its own type, and returns it. *)
Theorem GetString_GetBool_exact (key : string) (c : ConfigManager) :
  (forall s : string,
      fst (ConfigManager_GetString key c) = (s, true) <->
      values c !! key = Some (VString s)) /\
  (forall b : bool,
      fst (ConfigManager_GetBool key c) = (b, true) <->
      values c !! key = Some (VBool b)) /\
  (snd (fst (ConfigManager_GetString key c)) = false ->
   fst (ConfigManager_GetString key c) = ("", false)) /\
  (snd (fst (ConfigManager_GetBool key c)) = false ->
   fst (ConfigManager_GetBool key c) = (false, false)).
Proof.
  rewrite GetString_run, GetBool_run. cbn [fst].
  destruct (values c !! key) as [[]|]; split_and!; try done;
    intros ?; split; intros [= ?]; by subst.
Qed.

(** X15. [GetFloat] widens an integer below 2^53 in magnitude without loss:
    the float it returns has that integer as value, and stored in turn it is
    read back by [GetInt] as the integer. *)
Theorem GetFloat_widens_exactly (overflow : float64 -> Z)
  (key : string) (c : ConfigManager) (n : Z) :
  values c !! key = Some (VInt n) ->
  (- 2 ^ 53 < n < 2 ^ 53)%Z ->
  exists f : float64,
    fst (ConfigManager_GetFloat key c) = (f, true) /\
    float64_has_fraction f = false /\
    float64_trunc f = Some n /\
    forall k : string,
      fst (ConfigManager_GetInt overflow k
             (snd (ConfigManager_Set k (VFloat f) c)))
      = (n, true).
Proof.
  intros Hk Hn. exists (float64_of_int n).
  rewrite GetFloat_run, Hk. cbn [fst].
  destruct (float64_of_int_exact n Hn) as (_ & Hfrac & Ht).
  split_and!; try done.
  intros k. rewrite GetInt_run, Set_run. cbn [fst snd values].
  rewrite lookup_insert_eq. by rewrite int_of_float64_of_int.
Qed.

(** X16. A typed accessor finds only keys that [Get] finds; the converse
    fails: a key set to nil is found by [Get] and satisfies
    [RequiredValidator], and no typed accessor finds it. *)
Theorem typed_found_implies_present (overflow : float64 -> Z)
  (key : string) (c : ConfigManager) :
  (snd (fst (ConfigManager_GetString key c)) = true \/
   snd (fst (ConfigManager_GetInt overflow key c)) = true \/
   snd (fst (ConfigManager_GetBool key c)) = true \/
   snd (fst (ConfigManager_GetFloat key c)) = true \/
   snd (fst (ConfigManager_GetStringSlice key c)) = true ->
   snd (fst (ConfigManager_Get key c)) = true) /\
  (let c' := snd (ConfigManager_Set key VNil c) in
   fst (ConfigManager_Get key c') = (VNil, true) /\
   RequiredValidator_Validate {| Keys := slice_of [key] |} (values c') = None /\
   snd (fst (ConfigManager_GetString key c')) = false /\
   snd (fst (ConfigManager_GetInt overflow key c')) = false /\
   snd (fst (ConfigManager_GetBool key c')) = false /\
   snd (fst (ConfigManager_GetFloat key c')) = false /\
   snd (fst (ConfigManager_GetStringSlice key c')) = false).
Proof.
  split.
  - rewrite Get_run, GetString_run, GetInt_run, GetBool_run, GetFloat_run,
      GetStringSlice_run. cbn [fst]. unfold map_index.
    destruct (values c !! key) as [x|]; [done|]. cbn [snd].
    by intros [?|[?|[?|[?|?]]]].
  - cbn zeta.
    rewrite Get_run, GetString_run, GetInt_run, GetBool_run, GetFloat_run,
      GetStringSlice_run, Set_run.
    cbn [fst snd values]. unfold RequiredValidator_Validate, map_index.
    cbn [slice_elems Keys RequiredValidator_loop]. unfold map_index.
    rewrite lookup_insert_eq. by split_and!.
Qed.

(** X17. What [GetStringSlice] finds in a [[]any] is never nil, not even for
    a nil [[]any], and is as long as what is stored; what it finds in a
    [[]string] is the stored slice itself, nil when that is nil. *)
Theorem GetStringSlice_nil_and_length (key : string) (c : ConfigManager) :
  (forall (a : slice Value) (r : slice string),
      values c !! key = Some (VAnySlice a) ->
      fst (ConfigManager_GetStringSlice key c) = (r, true) ->
      r <> slice_nil /\ len r = len a) /\
  (values c !! key = Some (VAnySlice slice_nil) ->
   fst (ConfigManager_GetStringSlice key c) = (slice_of [], true)) /\
  (values c !! key = Some (VStringSlice slice_nil) ->
   fst (ConfigManager_GetStringSlice key c) = (slice_nil, true)).
Proof.
  rewrite GetStringSlice_run. cbn [fst]. split_and!.
  - intros a r ->.
    destruct (GetStringSlice_loop _ _ _) as [result|] eqn:Hloop; [|done].
    intros [= <-]. split; [done|].
    unfold len. cbn [slice_elems].
    assert (Hlen : forall items i (acc res : list string),
               GetStringSlice_loop items i acc = Some res ->
               length res = length acc).
    { clear. induction items as [|item items IH]; intros i acc res; simpl.
      - by intros [= ->].
      - destruct item; try done. intros Hres%IH.
        by rewrite length_insert in Hres. }
    rewrite (Hlen _ _ _ _ Hloop). unfold make_strings, len.
    by rewrite length_replicate.
  - by intros ->.
  - by intros ->.
Qed.

(** ** The environment and file sources *)

Lemma strings_ReplaceAll_removes (s : string) (old new : ascii) :
  Ascii.eqb new old = false ->
  string_has old (strings_ReplaceAll s old new) = false.
Proof.
  intros Hne. induction s as [|c s IH]; [done|].
  cbn [strings_ReplaceAll string_has]. rewrite IH, orb_false_r.
  destruct (Ascii.eqb c old) eqn:Hc; [done|exact Hc].
Qed.

Lemma strings_SplitN2_cut (env : string) :
  strings_SplitN2 env "="%char
  = match string_cut env "="%char with
    | Some (key, value) => [key; value]
    | None => [env]
    end.
Proof. unfold strings_SplitN2. by destruct (string_cut _ _) as [[]|]. Qed.

(** A turn of the loop passes over the entry, or assigns to the key of its
    name a scalar that the text after the "=" alone decides. *)
Lemma EnvSource_entry_cases (rt : Runtime) (prefix env : string) :
  if env_passed_over prefix env
  then forall vals, EnvSource_entry rt prefix vals env = vals
  else exists (key value : string) (v : Value),
      string_cut env "="%char = Some (key, value) /\
      strings_HasPrefix key prefix = true /\
      is_scalar_value v = true /\
      forall vals,
        EnvSource_entry rt prefix vals env
        = <[EnvSource_configKey rt prefix key := v]> vals.
Proof.
  unfold env_passed_over, EnvSource_entry. rewrite strings_SplitN2_cut.
  destruct (string_cut env "="%char) as [[key value]|]; [|done].
  destruct (strings_HasPrefix key prefix) eqn:Hp; cbn [negb]; [|done].
  exists key, value.
  destruct (String.eqb value "true" || String.eqb value "false").
  { by exists (VBool (String.eqb value "true")). }
  destruct (parseInt rt value) as [intVal [e|]];
    [|by exists (VInt intVal)].
  destruct (parseFloat rt value) as [floatVal [e'|]];
    [by exists (VString value)|by exists (VFloat floatVal)].
Qed.

Lemma EnvSource_entry_passed_over (rt : Runtime) (prefix env : string)
  (vals : gmap string Value) :
  env_passed_over prefix env = true ->
  EnvSource_entry rt prefix vals env = vals.
Proof.
  intros Hp. pose proof (EnvSource_entry_cases rt prefix env) as Hc.
  rewrite Hp in Hc. apply Hc.
Qed.

(** X18. [EnvSource.Load] never fails, so loading the environment never
    fails; no key it produces has an underscore, and every value it
    produces is a boolean, an integer, a float or a string. *)
Theorem EnvSource_Load_shape (rt : Runtime) (s : EnvSource)
  (c : ConfigManager) :
  snd (EnvSource_Load rt s) = None /\
  fst (@ConfigManager_Load EnvSource (EnvSource_Source rt) s c) = None /\
  map_Forall (fun (k : string) (v : Value) =>
                string_has "_"%char k = false /\ is_scalar_value v = true)
    (fst (EnvSource_Load rt s)).
Proof.
  split; [done|]. split.
  { by rewrite Load_run. }
  unfold EnvSource_Load, EnvSource_loop. cbn [fst].
  generalize (strings_ToUpper rt (Prefix s)). intros prefix.
  assert (Hinv : forall envs (vals : gmap string Value),
             map_Forall (fun (k : string) (v : Value) =>
                           string_has "_"%char k = false /\
                           is_scalar_value v = true) vals ->
             map_Forall (fun (k : string) (v : Value) =>
                           string_has "_"%char k = false /\
                           is_scalar_value v = true)
               (foldl (EnvSource_entry rt prefix) vals envs)).
  { induction envs as [|env envs IH]; intros vals Hvals; [done|].
    cbn [foldl]. apply IH.
    pose proof (EnvSource_entry_cases rt prefix env) as Hc.
    destruct (env_passed_over prefix env).
    - by rewrite Hc.
    - destruct Hc as (key & value & v & _ & _ & Hv & ->).
      apply map_Forall_insert_2; [|done]. split; [|done].
      by apply strings_ReplaceAll_removes. }
  apply Hinv, map_Forall_empty.
Qed.

(** X19. In the loop of [EnvSource.Load] an entry without "=" or whose name
    lacks the prefix can be dropped from the environment, and of two
    entries in a row whose names give the same key the later one alone
    counts. *)
Theorem EnvSource_loop_entries (rt : Runtime) (prefix : string)
  (vals : gmap string Value) :
  (forall (before after : list string) (env : string),
      env_passed_over prefix env = true ->
      EnvSource_loop rt prefix (before ++ env :: after) vals
      = EnvSource_loop rt prefix (before ++ after) vals) /\
  (forall (before after : list string) (e1 e2 k1 k2 v1 v2 : string),
      string_cut e1 "="%char = Some (k1, v1) ->
      string_cut e2 "="%char = Some (k2, v2) ->
      strings_HasPrefix k1 prefix = true ->
      strings_HasPrefix k2 prefix = true ->
      EnvSource_configKey rt prefix k1 = EnvSource_configKey rt prefix k2 ->
      EnvSource_loop rt prefix (before ++ e1 :: e2 :: after) vals
      = EnvSource_loop rt prefix (before ++ e2 :: after) vals).
Proof.
  unfold EnvSource_loop. split.
  - intros before after env Hp. rewrite !foldl_app. cbn [foldl].
    by rewrite EnvSource_entry_passed_over.
  - intros before after e1 e2 k1 k2 v1 v2 Hc1 Hc2 Hp1 Hp2 Hkey.
    rewrite !foldl_app. cbn [foldl]. f_equal.
    pose proof (EnvSource_entry_cases rt prefix e1) as H1.
    pose proof (EnvSource_entry_cases rt prefix e2) as H2.
    unfold env_passed_over in H1, H2.
    rewrite Hc1, Hp1 in H1. rewrite Hc2, Hp2 in H2. cbn [negb] in H1, H2.
    destruct H1 as (k1' & v1' & x1 & [= <- <-] & _ & _ & ->).
    destruct H2 as (k2' & v2' & x2 & [= <- <-] & _ & _ & H2).
    rewrite !H2, Hkey. apply insert_insert_eq.
Qed.

(** X20. [FileSource.Load] succeeds exactly when the file is read, its
    extension in lower case is ".json", ".yaml" or ".yml", and the decoder
    of that format accepts the content. A file that cannot be read fails
    [Load] on the manager whatever its extension, with the cause two
    wrappings down and the manager unchanged; a readable file of another
    extension fails it with the unsupported-format error. *)
Theorem FileSource_Load_outcomes (rt : Runtime) (s : FileSource)
  (c : ConfigManager) :
  let ext := strings_ToLower rt (filepath_Ext rt (Path s)) in
  let data := fst (os_ReadFile rt (Path s)) in
  (snd (FileSource_Load rt s) = None <->
   snd (os_ReadFile rt (Path s)) = None /\
   ((ext = ".json" /\ snd (json_Unmarshal rt data) = None) \/
    ((ext = ".yaml" \/ ext = ".yml") /\
     snd (yaml_Unmarshal rt data) = None))) /\
  (forall e : error,
      snd (os_ReadFile rt (Path s)) = Some e ->
      exists err : error,
        @ConfigManager_Load FileSource (FileSource_Source rt) s c
        = (Some err, c) /\
        errors_Unwrap err ≫= errors_Unwrap = Some e) /\
  (snd (os_ReadFile rt (Path s)) = None ->
   ext <> ".json" -> ext <> ".yaml" -> ext <> ".yml" ->
   @ConfigManager_Load FileSource (FileSource_Source rt) s c
   = (Some (fmt_Errorf "failed to load configuration: %w"
              [ArgError (fmt_Errorf "unsupported config file format: %s"
                           [ArgString ext])]), c)).
Proof.
  intros ext data. subst ext data.
  rewrite Load_run.
  change (@Source_Load FileSource (FileSource_Source rt) s)
    with (FileSource_Load rt s).
  unfold FileSource_Load.
  destruct (os_ReadFile rt (Path s)) as [data [e|]]; cbn [fst snd].
  { split_and!; [split; [done|by intros [? _]] | | done].
    intros e' [= <-]. by eexists. }
  destruct (String.eqb_spec
              (strings_ToLower rt (filepath_Ext rt (Path s))) ".json")
    as [Hj|Hj].
  { rewrite Hj. cbn [orb].
    destruct (json_Unmarshal rt data) as [vals [e|]]; cbn [snd];
      split_and!; try done; split; try done.
    - intros [_ [[_ ?]|[[?|?] _]]]; done.
    - intros _. split; [done|]. by left. }
  destruct (String.eqb_spec
              (strings_ToLower rt (filepath_Ext rt (Path s))) ".yaml")
    as [Hy|Hy].
  { rewrite Hy. cbn [orb].
    destruct (yaml_Unmarshal rt data) as [vals [e|]]; cbn [snd];
      split_and!; try done; split; try done.
    - intros [_ [[? _]|[_ ?]]]; done.
    - intros _. split; [done|]. right. split; [by left|done]. }
  destruct (String.eqb_spec
              (strings_ToLower rt (filepath_Ext rt (Path s))) ".yml")
    as [Hm|Hm].
  { rewrite Hm. cbn [orb].
    destruct (yaml_Unmarshal rt data) as [vals [e|]]; cbn [snd];
      split_and!; try done; split; try done.
    - intros [_ [[? _]|[_ ?]]]; done.
    - intros _. split; [done|]. right. split; [by right|done]. }
  cbn [orb snd]. split_and!; try done.
  split; [done|]. intros [_ [[? _]|[[?|?] _]]]; done.
Qed.

(** ** Instances of the further properties *)

Lemma Set_overwrites_and_commutes_witness :
  snd (ConfigManager_Set "host" (VString "h")
         (snd (ConfigManager_Set "port" (VInt 1) debug_store)))
  = snd (ConfigManager_Set "port" (VInt 1)
           (snd (ConfigManager_Set "host" (VString "h") debug_store))).
Proof.
  destruct (Set_overwrites_and_commutes debug_store "port" "host"
              (VInt 1) (VString "h")) as [_ Hcomm].
  apply Hcomm. discriminate.
Defined.

Lemma Load_is_overlay_witness :
  ConfigManager_Load override_source debug_store
  = ConfigManager_Set "port" (VInt 9090) debug_store.
Proof.
  destruct (Load_is_overlay override_source (Values override_source)
              debug_store eq_refl) as (_ & _ & Hset).
  apply Hset. reflexivity.
Defined.

Lemma Load_idempotent_and_commutes_witness :
  snd (ConfigManager_Load defaults_source
         (snd (ConfigManager_Load defaults_source debug_store)))
  = snd (ConfigManager_Load defaults_source debug_store).
Proof.
  destruct (Load_idempotent_and_commutes defaults_source override_source
              (Values defaults_source) (Values override_source) debug_store
              eq_refl eq_refl) as [Hidem _].
  exact Hidem.
Defined.

Lemma calls_keep_keys_and_validators_witness :
  is_Some (values (after_calls amd64_conversion_overflow debug_store
                     [CallSet "port" (VInt 1);
                      CallLoad (as_source override_source);
                      CallLoad (as_source failing_source);
                      CallValidate; CallGetInt "port"])
           !! "debug") /\
  is_Some (values (after_calls amd64_conversion_overflow written_store
                     [CallSet "port" (VInt 1); CallGet "port"])
           !! "debug").
Proof.
  split; [|
    destruct (calls_keep_keys_and_validators amd64_conversion_overflow
                [CallSet "port" (VInt 1); CallGet "port"] written_store)
      as (_ & _ & Hno);
    apply Hno;
    [ intros Hin;
      repeat (apply elem_of_cons in Hin as [Hin|Hin]; [discriminate|]);
      by apply elem_of_nil in Hin
    | exists (VBool false); reflexivity ] ].
  destruct (calls_keep_keys_and_validators amd64_conversion_overflow
              [CallSet "port" (VInt 1);
               CallLoad (as_source override_source);
               CallLoad (as_source failing_source);
               CallValidate; CallGetInt "port"] debug_store)
    as (_ & Hkeys & _).
  apply Hkeys.
  - constructor.
  - repeat constructor.
  - exists (VBool false). reflexivity.
Defined.

Lemma RequiredValidator_stays_satisfied_witness :
  RequiredValidator_Validate {| Keys := slice_of ["debug"] |}
    (values (after_calls amd64_conversion_overflow debug_store
               [CallSet "debug" VNil; CallLoad (as_source override_source)]))
  = None.
Proof.
  apply (RequiredValidator_stays_satisfied amd64_conversion_overflow
           {| Keys := slice_of ["debug"] |}
           [CallSet "debug" VNil; CallLoad (as_source override_source)]
           debug_store).
  - constructor.
  - repeat constructor.
  - reflexivity.
Defined.

Lemma Validate_nil_iff_all_accept_witness :
  exists v : validator,
    v ∈ validators guarded_store /\
    validator_call v (values guarded_store)
    = Some (fmt_Errorf "required configuration key missing: %s"
              [ArgString "a"]).
Proof.
  destruct (Validate_nil_iff_all_accept guarded_store) as (_ & _ & Hro).
  destruct Hro as [_ Herr].
  - repeat (constructor; [intros vals; reflexivity|]). constructor.
  - apply Herr. reflexivity.
Defined.

Lemma Validate_after_AddValidator_witness :
  fst (ConfigManager_Validate
         (snd (ConfigManager_AddValidator
                 (as_validator {| shouldFail := true |}) checked_store)))
  = Some (errors_New "validation failed").
Proof.
  destruct (Validate_after_AddValidator
              (as_validator {| shouldFail := true |}) checked_store)
    as [_ Hro].
  rewrite Hro; [reflexivity|].
  repeat (constructor; [intros vals; reflexivity|]). constructor.
Defined.

Lemma TypeValidator_exact_type_witness :
  fst (ConfigManager_GetFloat "x" typed_store) = (float64_of_int 42, true) /\
  TypeValidator_Validate
    {| TypeValidator_Key := "x"; TypeValidator_Type := Some TFloat64 |}
    (values typed_store)
  = Some (fmt_Errorf "invalid type for key %s: expected %v, got %v"
            [ArgString "x"; ArgType (Some TFloat64); ArgType (Some TInt)]).
Proof.
  destruct (TypeValidator_exact_type
              {| TypeValidator_Key := "x"; TypeValidator_Type := Some TFloat64 |}
              typed_store) as [_ Hint].
  apply (Hint 42%Z); reflexivity.
Defined.

Lemma Validate_nil_guarantees_keys_witness :
  snd (fst (ConfigManager_Get "port"
              (snd (ConfigManager_Validate port_store)))) = true /\
  reflect_TypeOf (VFloat (float64_lit 8080 0)) = Some TFloat64.
Proof.
  assert (Hro : Forall validator_reads_only (validators port_store)).
  { repeat (constructor; [intros vals; reflexivity|]). constructor. }
  destruct (Validate_nil_guarantees_keys port_store eq_refl Hro)
    as [Hreq Htype].
  split.
  - apply (Hreq {| Keys := slice_of ["port"] |} "port").
    + apply list_elem_of_here.
    + apply list_elem_of_here.
  - apply (Htype {| TypeValidator_Key := "port";
                    TypeValidator_Type := Some TFloat64 |}).
    + apply list_elem_of_further, list_elem_of_here.
    + reflexivity.
Defined.

Lemma RangeValidator_integer_is_integral_witness :
  RangeValidator_Validate amd64_conversion_overflow port_validator
    {[ "port" := VInt 8080 ]}
  = if float64_lt (float64_of_int 8080) (Min port_validator)
       || float64_gt (float64_of_int 8080) (Max port_validator)
    then Some (out_of_range_error port_validator)
    else None.
Proof.
  apply (RangeValidator_integer_is_integral amd64_conversion_overflow
           port_validator {[ "port" := VInt 8080 ]} 8080%Z).
  - reflexivity.
  - split; reflexivity.
Defined.

Lemma RangeValidator_NaN_witness :
  RangeValidator_Validate amd64_conversion_overflow wide_validator
    {[ "n" := VFloat S754_nan ]}
  = None.
Proof.
  destruct (RangeValidator_NaN amd64_conversion_overflow wide_validator
              {[ "n" := VFloat S754_nan ]}) as [Hnan _].
  apply Hnan. reflexivity.
Defined.

Lemma RangeValidator_empty_interval_witness :
  RangeValidator_Validate amd64_conversion_overflow
    {| Key := "port"; Min := float64_lit 65535 0; Max := float64_lit 1024 0;
       IsInt := true |}
    {[ "port" := VInt 8080 ]}
  = Some (out_of_range_error
            {| Key := "port"; Min := float64_lit 65535 0;
               Max := float64_lit 1024 0; IsInt := true |}).
Proof.
  apply (RangeValidator_empty_interval amd64_conversion_overflow
           {| Key := "port"; Min := float64_lit 65535 0;
              Max := float64_lit 1024 0; IsInt := true |}
           {[ "port" := VInt 8080 ]} (VInt 8080) (float64_of_int 8080)).
  - reflexivity.
  - reflexivity.
  - reflexivity.
  - discriminate.
Defined.

Lemma Validate_nil_guarantees_range_witness :
  exists fv : float64,
    RangeValidator_floatValue (VFloat (float64_lit 8080 0)) = Some fv /\
    float64_lt fv (Min port_validator) = false /\
    float64_gt fv (Max port_validator) = false /\
    (forall f : float64,
        IsInt port_validator = true -> VFloat (float64_lit 8080 0) = VFloat f ->
        float64_valid f = true ->
        float64_has_fraction f = false /\
        SFeqb f (float64_of_int
                   (fst (fst (ConfigManager_GetInt amd64_conversion_overflow
                                (Key port_validator)
                                (snd (ConfigManager_Validate port_store))))))
        = true).
Proof.
  apply (Validate_nil_guarantees_range amd64_conversion_overflow port_store
           port_validator (VFloat (float64_lit 8080 0))).
  - reflexivity.
  - repeat (constructor; [intros vals; reflexivity|]). constructor.
  - apply list_elem_of_further, list_elem_of_further, list_elem_of_here.
  - reflexivity.
Defined.

Lemma GetString_GetBool_exact_witness :
  fst (ConfigManager_GetString "z" typed_store) = ("hi", true) /\
  fst (ConfigManager_GetString "x" typed_store) = ("", false).
Proof.
  destruct (GetString_GetBool_exact "z" typed_store) as (Hz & _).
  destruct (GetString_GetBool_exact "x" typed_store) as (_ & _ & Hx & _).
  split.
  - apply Hz. reflexivity.
  - apply Hx. reflexivity.
Defined.

Lemma GetFloat_widens_exactly_witness :
  exists f : float64,
    fst (ConfigManager_GetFloat "x" typed_store) = (f, true) /\
    float64_has_fraction f = false /\
    float64_trunc f = Some 42%Z /\
    forall k : string,
      fst (ConfigManager_GetInt amd64_conversion_overflow k
             (snd (ConfigManager_Set k (VFloat f) typed_store)))
      = (42%Z, true).
Proof.
  apply (GetFloat_widens_exactly amd64_conversion_overflow "x" typed_store
           42%Z).
  - reflexivity.
  - split; reflexivity.
Defined.

Lemma typed_found_implies_present_witness :
  snd (fst (ConfigManager_Get "y" typed_store)) = true.
Proof.
  destruct (typed_found_implies_present amd64_conversion_overflow "y"
              typed_store) as [Hfound _].
  apply Hfound. right. left. reflexivity.
Defined.

Lemma GetStringSlice_nil_and_length_witness :
  slice_of ["a"; "b"] <> slice_nil /\
  len (slice_of ["a"; "b"])
  = len (slice_of [VString "a"; VString "b"]).
Proof.
  destruct (GetStringSlice_nil_and_length "tags" typed_store) as (Hlen & _).
  apply Hlen; reflexivity.
Defined.

Lemma EnvSource_Load_shape_witness :
  fst (EnvSource_Load example_runtime {| Prefix := "app_" |})
  = {[ "server.port" := VInt 9090; "debug" := VBool true;
       "name" := VString "my=app" ]} /\
  map_Forall (fun (k : string) (v : Value) =>
                string_has "_"%char k = false /\ is_scalar_value v = true)
    (fst (EnvSource_Load example_runtime {| Prefix := "app_" |})).
Proof.
  split; [vm_compute; reflexivity|].
  apply (EnvSource_Load_shape example_runtime {| Prefix := "app_" |} New).
Defined.

Lemma EnvSource_loop_entries_witness :
  EnvSource_loop example_runtime "APP_"
    (["APP_DEBUG=true"] ++ "HOME=/root" :: ["APP_NAME=my=app"]) ∅
  = EnvSource_loop example_runtime "APP_"
      (["APP_DEBUG=true"] ++ ["APP_NAME=my=app"]) ∅.
Proof.
  destruct (EnvSource_loop_entries example_runtime "APP_" ∅) as [Hdrop _].
  apply Hdrop. reflexivity.
Defined.

Lemma FileSource_Load_outcomes_witness :
  snd (FileSource_Load example_runtime {| Path := "conf/app.JSON" |}) = None /\
  @ConfigManager_Load FileSource (FileSource_Source example_runtime)
    {| Path := "conf/app.toml" |} debug_store
  = (Some (fmt_Errorf "failed to load configuration: %w"
             [ArgError (fmt_Errorf "unsupported config file format: %s"
                          [ArgString ".toml"])]), debug_store).
Proof.
  destruct (FileSource_Load_outcomes example_runtime
              {| Path := "conf/app.JSON" |} debug_store) as (Hok & _).
  destruct (FileSource_Load_outcomes example_runtime
              {| Path := "conf/app.toml" |} debug_store) as (_ & _ & Hext).
  split.
  - apply Hok. split; [reflexivity|]. left. split; reflexivity.
  - apply Hext; [reflexivity|discriminate..].
Defined.
